(** * Tasting notes: the read-merge-write handlers of famelia-tasting

    A shallow embedding of the two route handlers of the repository,

    - the App Proxy handler ([src/unnamed/part_000]): signature check on the
      raw body, then read-merge-write of the customer's [tasting.events]
      metafield;
    - the direct handler ([src/app/proxy/save/route.js]): origin check,
      e-mail confirmation, then the same read-merge-write,

    and the statements of the specification about them.

    JavaScript values are modelled as a tree datatype, exceptions as an error
    result, remote calls and the clock as the nodes of a small interaction
    tree.  What the JavaScript runtime provides (IEEE numbers, [JSON.parse],
    [JSON.stringify], [String.prototype.toLowerCase], the HMAC of [crypto]) is
    an interface the development is parametric in. *)

From Stdlib Require Import ZArith NArith Ascii String.
From stdpp Require Import base option list strings.

Unset Default Proof Using.
Local Open Scope string_scope.
Local Open Scope list_scope.

(** ** The runtime's numbers *)

(** A JavaScript Number is an IEEE-754 double.  The handlers never compute
    with numbers: they compare them ([===]), test them for truthiness,
    produce them from other values ([Number(x)]) and print them.  These
    operations are the interface. *)
Class Numbers := {
  number : Type;
  (** [a === b] on two Numbers: false when either is NaN, [+0 === -0]. *)
  num_eqb : number → number → bool;
  (** ToBoolean: false exactly on [+0], [-0] and [NaN]. *)
  num_truthy : number → bool;
  (** the Number of a small non-negative integer *)
  num_of_nat : nat → number;
  NaN : number;
  (** [Number(s)] for a string [s] *)
  StringToNumber : string → number;
  (** [String(n)] for a Number [n] *)
  NumberToString : number → string;
}.

(** IEEE equality is symmetric and transitive (it is not reflexive: NaN). *)
Class NumbersLaws `{Numbers} : Prop := {
  num_eqb_sym : ∀ a b, num_eqb a b = num_eqb b a;
  num_eqb_trans : ∀ a b c, num_eqb a b = true → num_eqb b c = true → num_eqb a c = true;
}.

(** ** Values *)

(** The values the handlers see: what [JSON.parse] returns, plus [undefined]
    (a missing property) and Numbers such as NaN that arise in memory.  An
    object is the list of its own properties in insertion order. *)
Unset Elimination Schemes.
Inductive value `{Numbers} : Type :=
  | VUndefined
  | VNull
  | VBool (b : bool)
  | VNum (n : number)
  | VStr (s : string)
  | VArr (xs : list value)
  | VObj (kvs : list (string * value)).
Set Elimination Schemes.

(** ** Exceptions *)

Inductive exn :=
  | TypeError
  | SyntaxError
  | RangeError
  | FetchFailed
  | Error (message : string).

Inductive result (A : Type) :=
  | Ok (a : A)
  | Thrown (e : exn).
Arguments Ok {A} a.
Arguments Thrown {A} e.

Definition result_bind {A B} (r : result A) (f : A → result B) : result B :=
  match r with
  | Ok a => f a
  | Thrown e => Thrown e
  end.

Declare Scope result_scope.
Delimit Scope result_scope with result.
Notation "x <- c ;; k" := (result_bind c (fun x => k))
  (at level 100, c at next level, right associativity) : result_scope.
Local Open Scope result_scope.

Section Values.
Context `{Numbers}.

(** ToBoolean *)
Definition truthy (v : value) : bool :=
  match v with
  | VUndefined | VNull => false
  | VBool b => b
  | VNum n => num_truthy n
  | VStr s => negb (String.eqb s "")
  | VArr _ | VObj _ => true
  end.

(** [a || b] *)
Definition js_or (a b : value) : value := if truthy a then a else b.

(** [a === b].  Arrays and objects compare by reference; every comparison
    the handlers make has one operand from the request and the other from
    the stored document, two separately parsed trees, so two arrays or
    objects compared there are never the same reference. *)
Definition strict_eq (a b : value) : bool :=
  match a, b with
  | VUndefined, VUndefined => true
  | VNull, VNull => true
  | VBool x, VBool y => Bool.eqb x y
  | VNum x, VNum y => num_eqb x y
  | VStr x, VStr y => String.eqb x y
  | _, _ => false
  end.

Fixpoint assoc (k : string) (kvs : list (string * value)) : option value :=
  match kvs with
  | [] => None
  | (k', v) :: r => if String.eqb k' k then Some v else assoc k r
  end.

(** [v.k] for the property names the handlers read.  None of them is a
    member of a prototype, [length] or an index, so on a primitive or an
    array the property is [undefined]; on [null] and [undefined] the access
    throws. *)
Definition get (v : value) (k : string) : result value :=
  match v with
  | VUndefined | VNull => Thrown TypeError
  | VObj kvs => Ok (default VUndefined (assoc k kvs))
  | _ => Ok VUndefined
  end.

(** [v?.k] *)
Definition opt_get (v : value) (k : string) : value :=
  match v with
  | VObj kvs => default VUndefined (assoc k kvs)
  | _ => VUndefined
  end.

(** The object after the value held under [k] has changed: an existing
    property keeps its place, a new one goes last. *)
Fixpoint set_assoc (k : string) (v : value) (kvs : list (string * value))
  : list (string * value) :=
  match kvs with
  | [] => [(k, v)]
  | (k', v') :: r =>
      if String.eqb k' k then (k', v) :: r else (k', v') :: set_assoc k v r
  end.

Definition set_prop (k : string) (v : value) (o : value) : value :=
  match o with
  | VObj kvs => VObj (set_assoc k v kvs)
  | _ => o
  end.

Fixpoint join (sep : string) (l : list string) : string :=
  match l with
  | [] => ""
  | [s] => s
  | s :: r => s +:+ sep +:+ join sep r
  end.

(** ToString, as in a template literal or [String(v)]. *)
Fixpoint ToString (v : value) : string :=
  match v with
  | VUndefined => "undefined"
  | VNull => "null"
  | VBool true => "true"
  | VBool false => "false"
  | VNum n => NumberToString n
  | VStr s => s
  | VArr xs =>
      join ","
        ((fix elems (l : list value) : list string :=
            match l with
            | [] => []
            | VUndefined :: r | VNull :: r => "" :: elems r
            | x :: r => ToString x :: elems r
            end) xs)
  | VObj _ => "[object Object]"
  end.

(** [Number(v)] *)
Definition ToNumber (v : value) : number :=
  match v with
  | VUndefined => NaN
  | VNull => num_of_nat 0
  | VBool b => num_of_nat (if b then 1 else 0)
  | VNum n => n
  | VStr s => StringToNumber s
  | VArr _ | VObj _ => StringToNumber (ToString v)
  end.

(** The first [n] code units of a string: [s.slice(0, n)]. *)
Fixpoint str_take (n : nat) (s : string) : string :=
  match n, s with
  | S n', String c r => String c (str_take n' r)
  | _, _ => ""
  end.

(** [v.slice(0, n)]: strings and arrays have the method, nothing else a
    parsed document can hold does. *)
Definition slice0 (n : nat) (v : value) : result value :=
  match v with
  | VStr s => Ok (VStr (str_take n s))
  | VArr xs => Ok (VArr (take n xs))
  | _ => Thrown TypeError
  end.

(** The receiver of an array method ([find], [findIndex], [push], [map]). *)
Definition as_array (v : value) : result (list value) :=
  match v with
  | VArr xs => Ok xs
  | _ => Thrown TypeError
  end.

(** [xs.findIndex(p)]; [xs.find(p)] is the element at that index. *)
Fixpoint findIndex (p : value → result bool) (xs : list value)
  : result (option nat) :=
  match xs with
  | [] => Ok None
  | x :: r =>
      b <- p x ;;
      if b : bool then Ok (Some 0)
      else o <- findIndex p r ;; Ok (S <$> o)
  end.

End Values.

(** ** The merge *)

(** Both handlers carry the same merge, step 2 of the App Proxy handler
    (lines 71 to 87 of [part_000]) and step 5 of the direct handler (lines 78
    to 94 of [route.js]), except for the value the stored [product_id]s are
    compared with. *)
Section Merge.
Context `{Numbers}.

(** [e => e.collection_handle === event_handle] *)
Definition event_matches (event_handle e : value) : result bool :=
  c <- get e "collection_handle" ;; Ok (strict_eq c event_handle).

(** [w => w.product_id === key] *)
Definition wine_matches (key w : value) : result bool :=
  p <- get w "product_id" ;; Ok (strict_eq p key).

(** [{ id: event_handle, name: event_name || event_handle,
       date: now.slice(0,10), collection_handle: event_handle, wines: [] }] *)
Definition new_event (now : string) (event_handle event_name : value) : value :=
  VObj [("id", event_handle);
        ("name", js_or event_name event_handle);
        ("date", VStr (str_take 10 now));
        ("collection_handle", event_handle);
        ("wines", VArr [])].

(** [let evt = store.events.find(...);
     if (!evt) { evt = {...}; store.events.push(evt); }]
    The result is the events array afterwards and the position in it of the
    object [evt] refers to. *)
Definition find_or_create_event (now : string) (event_handle event_name : value)
    (es : list value) : result (nat * list value) :=
  found <- findIndex (event_matches event_handle) es ;;
  let created := (length es, es ++ [new_event now event_handle event_name]) in
  match found with
  | Some i => if truthy (default VUndefined (es !! i)) then Ok (i, es) else Ok created
  | None => Ok created
  end.

(** The entry object literal. *)
Definition build_entry (now : string) (product : value) : result value :=
  pid <- get product "product_id" ;;
  handle <- get product "handle" ;;
  title <- get product "title" ;;
  rating <- get product "rating" ;;
  note <- get product "note" ;;
  note' <- slice0 2000 (js_or note (VStr "")) ;;
  Ok (VObj [("product_id", VNum (ToNumber pid));
            ("handle", js_or handle (VStr ""));
            ("title", js_or title (VStr ""));
            ("rating", match rating with VNum _ => rating | _ => VNull end);
            ("note", note');
            ("updated_at", VStr now)]).

(** [const idx = evt.wines.findIndex(w => w.product_id === key);
     const entry = {...};
     if (idx === -1) evt.wines.push(entry); else evt.wines[idx] = entry;]
    The array held by [evt.wines] is updated in place; the result is the
    event object afterwards.  [key_of] gives the value compared with, from
    [product.product_id]. *)
Definition upsert_wine (key_of : value → value) (now : string) (product evt : value)
  : result value :=
  wines <- get evt "wines" ;;
  ws <- as_array wines ;;
  pid <- get product "product_id" ;;
  idx <- findIndex (wine_matches (key_of pid)) ws ;;
  entry <- build_entry now product ;;
  Ok (set_prop "wines"
        (VArr match idx with
              | None => ws ++ [entry]
              | Some i => <[i:=entry]> ws
              end) evt).

(** The store after the merge. *)
Definition merge_store (key_of : value → value) (now : string)
    (store event_handle event_name product : value) : result value :=
  events <- get store "events" ;;
  es <- as_array events ;;
  found <- find_or_create_event now event_handle event_name es ;;
  let '(pos, es1) := found in
  evt <- upsert_wine key_of now product (default VUndefined (es1 !! pos)) ;;
  Ok (set_prop "events" (VArr (<[pos:=evt]> es1)) store).

(** [part_000], line 78: [w.product_id === product.product_id] *)
Definition merge_proxy := merge_store (fun pid => pid).

(** [route.js], line 85: [w.product_id === Number(product.product_id)] *)
Definition merge_direct := merge_store (fun pid => VNum (ToNumber pid)).

(** [let store = { events: [] }] *)
Definition empty_store : value := VObj [("events", VArr [])].

End Merge.

(** ** The identity invariants of the data model *)

Section Invariants.
Context `{Numbers}.

(** No two elements at different positions have strictly equal keys. *)
Definition keys_distinct (key : value → value) (xs : list value) : Prop :=
  ∀ i j x y, xs !! i = Some x → xs !! j = Some y →
             strict_eq (key x) (key y) = true → i = j.

(** At most one event per [collection_handle]. *)
Definition unique_events (es : list value) : Prop :=
  keys_distinct (λ e, opt_get e "collection_handle") es.

(** At most one entry per [product_id]. *)
Definition unique_wines (ws : list value) : Prop :=
  keys_distinct (λ w, opt_get w "product_id") ws.

Definition store_invariant (store : value) : Prop :=
  ∃ es, get store "events" = Ok (VArr es) ∧ unique_events es ∧
        Forall (λ e, ∃ ws, get e "wines" = Ok (VArr ws) ∧ unique_wines ws) es.

End Invariants.

(** ** Repeated submissions *)

Section Repetition.
Context `{Numbers}.

(** The same submission merged [n] times in a row, the clock held at [now]. *)
Fixpoint merge_times
    (merge : string → value → value → value → value → result value)
    (n : nat) (now : string) (store h name product : value) : result value :=
  match n with
  | 0 => Ok store
  | S m => store' <- merge now store h name product ;;
           merge_times merge m now store' h name product
  end.

End Repetition.

(** ** The rest of the runtime, and the deployment *)

Class Builtins `{Numbers} := {
  (** [JSON.parse(s)]; [None] when it throws a SyntaxError *)
  JSON_parse : string → option value;
  JSON_stringify : value → string;
  toLowerCase : string → string;
  (** [crypto.createHmac("sha256", key).update(message).digest("base64")] *)
  hmac_sha256_base64 : string → string → string;
}.

(** The base64 text of a 32-byte digest has 44 characters. *)
Class BuiltinsLaws `{Builtins} : Prop := {
  digest_length : ∀ key message, String.length (hmac_sha256_base64 key message) = 44;
}.

(** [process.env]: the shop domain and the app secret.  (The admin token and
    the API version only occur in the address and the headers of the remote
    call, which the model does not detail.) *)
Class Env := {
  SHOP : string;
  APP_SECRET : string;
}.

(** ** Requests, responses and remote calls *)

Record request := {
  req_headers : list (string * string);   (* names in lower case *)
  req_search : list (string * string);    (* the query parameters of the URL *)
  req_text : string;                      (* the raw body *)
}.

Record response := {
  status : nat;
  headers : list (string * string);
  body : string;
}.

(** The three GraphQL documents: [customer(id) { id email }],
    [customer(id) { metafield(namespace:tasting, key:events) { id type value } }]
    and [metafieldsSet(...) { userErrors { field message } }]. *)
Inductive query :=
  | CustomerEmailQuery
  | MetafieldQuery
  | MetafieldsSetMutation.

(** What [fetch] comes back with: a rejection, or a response with its [ok]
    flag and its body text. *)
Inductive fetch_reply :=
  | Rejected
  | Response (ok : bool) (text : string).

(** A handler is a tree: it returns, throws, or asks the world (a remote
    call, the clock) and continues with the answer. *)
Inductive prog `{Numbers} (A : Type) :=
  | Ret (a : A)
  | Throw (e : exn)
  | Fetch (q : query) (variables : value) (k : fetch_reply → prog A)
  | Now (k : string → prog A).
Arguments Ret {_ A} a.
Arguments Throw {_ A} e.
Arguments Fetch {_ A} q variables k.
Arguments Now {_ A} k.

Fixpoint prog_bind `{Numbers} {A B} (p : prog A) (f : A → prog B) : prog B :=
  match p with
  | Ret a => f a
  | Throw e => Throw e
  | Fetch q v k => Fetch q v (fun r => prog_bind (k r) f)
  | Now k => Now (fun t => prog_bind (k t) f)
  end.

Definition lift `{Numbers} {A} (r : result A) : prog A :=
  match r with
  | Ok a => Ret a
  | Thrown e => Throw e
  end.

Declare Scope prog_scope.
Delimit Scope prog_scope with prog.
Notation "x <- c ;; k" := (prog_bind c (fun x => k))
  (at level 100, c at next level, right associativity) : prog_scope.

(** One exchange with the world. *)
Inductive event `{Numbers} :=
  | EFetch (q : query) (variables : value) (r : fetch_reply)
  | ENow (t : string).

(** [runs p tr o]: the handler [p] can run to the outcome [o], the world
    having answered as [tr] records. *)
Inductive runs `{Numbers} {A} : prog A → list event → result A → Prop :=
  | runs_Ret a : runs (Ret a) [] (Ok a)
  | runs_Throw e : runs (Throw e) [] (Thrown e)
  | runs_Fetch q v k r tr o :
      runs (k r) tr o → runs (Fetch q v k) (EFetch q v r :: tr) o
  | runs_Now k t tr o :
      runs (k t) tr o → runs (Now k) (ENow t :: tr) o.

Definition is_fetch `{Numbers} (e : event) : bool :=
  match e with
  | EFetch _ _ _ => true
  | ENow _ => false
  end.

(** The documents of the remote calls of a run, in order. *)
Definition queries `{Numbers} (tr : list event) : list query :=
  omap (λ e, match e with EFetch q _ _ => Some q | ENow _ => None end) tr.

(** ** The handlers *)

Section Handlers.
Context `{Builtins} `{Env}.

Fixpoint lookup_first (k : string) (l : list (string * string)) : option string :=
  match l with
  | [] => None
  | (k', v) :: r => if String.eqb k' k then Some v else lookup_first k r
  end.

(** [crypto.timingSafeEqual(a, b)] *)
Definition timingSafeEqual (a b : list ascii) : result bool :=
  if Nat.eqb (length a) (length b) then Ok (bool_decide (a = b))
  else Thrown RangeError.

(** [Buffer.from(s)] *)
Definition Buffer_from (s : string) : list ascii := list_ascii_of_string s.

(** [part_000], lines 8 to 17 *)
Definition verifyProxySignature (hdrs : list (string * string)) (rawBody : string)
  : bool :=
  let sig := default "" (lookup_first "x-shopify-proxy-signature" hdrs) in
  let digest := hmac_sha256_base64 APP_SECRET rawBody in
  match timingSafeEqual (Buffer_from digest) (Buffer_from sig) with
  | Ok b => b
  | Thrown _ => String.eqb digest sig
  end.

(** What [shopifyGraphQL] makes of the reply: [await r.json()], then
    [if (!r.ok || json.errors) throw new Error(...)], then [json.data]. *)
Definition graphql_result (r : fetch_reply) : result value :=
  match r with
  | Rejected => Thrown FetchFailed
  | Response ok text =>
      match JSON_parse text with
      | None => Thrown SyntaxError
      | Some json =>
          errors <- get json "errors" ;;
          if negb ok || truthy errors
          then Thrown (Error (JSON_stringify (js_or errors json)))
          else get json "data"
      end
  end.

Definition shopifyGraphQL (q : query) (variables : value) : prog value :=
  Fetch q variables (fun r => lift (graphql_result r)).

Definition json_headers : list (string * string) :=
  [("Content-Type", "application/json")].

Definition error_body (msg : string) : string :=
  JSON_stringify (VObj [("ok", VBool false); ("error", VStr msg)]).

Definition ok_response : response :=
  {| status := 200; headers := json_headers;
     body := JSON_stringify (VObj [("ok", VBool true)]) |}.

(** [route.js], lines 16 to 20 *)
Definition bad (resMsg : string) (code : nat) : response :=
  {| status := code; headers := json_headers; body := error_body resMsg |}.

(** the error responses of [part_000], which set no header *)
Definition proxy_error (msg : string) (code : nat) : response :=
  {| status := code; headers := []; body := error_body msg |}.

(** [let store = { events: [] };
     const mf = data?.customer?.metafield;
     if (mf?.value) { try { store = JSON.parse(mf.value); } catch {} }] *)
Definition load_store (data : value) : value :=
  let mf := opt_get (opt_get data "customer") "metafield" in
  let v := opt_get mf "value" in
  if truthy v then default empty_store (JSON_parse (ToString v))
  else empty_store.

(** [errs.length], as a condition *)
Definition has_length (v : value) : bool :=
  match v with
  | VArr xs => negb (bool_decide (length xs = 0))
  | VStr s => negb (String.eqb s "")
  | VObj _ => truthy (opt_get v "length")
  | _ => false
  end.

Fixpoint map_result {A B} (f : A → result B) (l : list A) : result (list B) :=
  match l with
  | [] => Ok []
  | x :: r => y <- f x ;; ys <- map_result f r ;; Ok (y :: ys)
  end.

(** the text of an array element in [join] *)
Definition element_text (v : value) : string :=
  match v with
  | VUndefined | VNull => ""
  | _ => ToString v
  end.

(** [errs.map(e => e.message).join("; ")] *)
Definition error_messages (errs : value) : result string :=
  xs <- as_array errs ;;
  ms <- map_result (fun e => get e "message") xs ;;
  Ok (join "; " (element_text <$> ms)).

(** [const errs = data?.metafieldsSet?.userErrors || [];
     if (errs.length) return <500>; return <ok>] *)
Definition respond (fail : string → nat → response) (data2 : value)
  : result response :=
  let errs := js_or (opt_get (opt_get data2 "metafieldsSet") "userErrors")
                    (VArr []) in
  if has_length errs
  then msg <- error_messages errs ;; Ok (fail msg 500)
  else Ok ok_response.

Definition read_variables (customerGID : string) : value :=
  VObj [("id", VStr customerGID)].

Definition write_variables (customerGID : string) (store : value) : value :=
  VObj [("ownerId", VStr customerGID); ("value", VStr (JSON_stringify store))].

(** The read-merge-write both handlers end with ([part_000], lines 56 to
    112; [route.js], lines 65 to 116).  [merge] is the merge of the handler
    and [fail] its way of building an error response. *)
Definition read_merge_write
    (merge : string → value → value → value → value → result value)
    (fail : string → nat → response)
    (customerGID : string) (event_handle event_name product : value)
  : prog response :=
  (data1 <- shopifyGraphQL MetafieldQuery (read_variables customerGID) ;;
   let store := load_store data1 in
   Now (fun now =>
     store' <- lift (merge now store event_handle event_name product) ;;
     data2 <- shopifyGraphQL MetafieldsSetMutation
                (write_variables customerGID store') ;;
     lift (respond fail data2)))%prog.

(** [part_000], lines 35 to 113 *)
Definition POST_proxy (request : request) : prog response :=
  let loggedInCustomerId := lookup_first "logged_in_customer_id" (req_search request) in
  let raw := req_text request in
  if negb (verifyProxySignature (req_headers request) raw)
  then Ret (proxy_error "Bad signature" 401)
  else if String.eqb (default "" loggedInCustomerId) ""
  then Ret (proxy_error "Not logged in" 401)
  else
    let payload := default (VObj []) (JSON_parse raw) in
    let fields := js_or payload (VObj []) in
    let event_handle := opt_get fields "event_handle" in
    let event_name := opt_get fields "event_name" in
    let product := opt_get fields "product" in
    if negb (truthy event_handle) || negb (truthy (opt_get product "product_id"))
    then Ret (proxy_error "Missing event or product" 400)
    else
      let customerGID := "gid://shopify/Customer/" +:+ default "" loggedInCustomerId in
      read_merge_write merge_proxy proxy_error customerGID
        event_handle event_name product.

(** [route.js], lines 10 to 14 *)
Definition ALLOWED_ORIGINS : list string :=
  ["https://" +:+ SHOP; "https://famelia.com"; "https://www.famelia.com"].

Definition origin_allowed (origin : option string) : bool :=
  match origin with
  | Some o => bool_decide (o ∈ ALLOWED_ORIGINS)
  | None => false
  end.

(** [!realEmail || realEmail.toLowerCase() !== String(customer_email).toLowerCase()];
    only a string has [toLowerCase]. *)
Definition email_mismatch (realEmail customer_email : value) : result bool :=
  if negb (truthy realEmail) then Ok true
  else match realEmail with
       | VStr s =>
           Ok (negb (String.eqb (toLowerCase s)
                                (toLowerCase (ToString customer_email))))
       | _ => Thrown TypeError
       end.

(** [route.js], lines 36 to 117 *)
Definition POST_direct (request : request) : prog response :=
  let origin := lookup_first "origin" (req_headers request) in
  if negb (origin_allowed origin) then Ret (bad "Origin not allowed" 401)
  else
    match JSON_parse (req_text request) with
    | None => Ret (bad "Invalid JSON" 400)
    | Some body =>
        let fields := js_or body (VObj []) in
        let shop := opt_get fields "shop" in
        let customer_id := opt_get fields "customer_id" in
        let customer_email := opt_get fields "customer_email" in
        let event_handle := opt_get fields "event_handle" in
        let event_name := opt_get fields "event_name" in
        let product := opt_get fields "product" in
        if negb (truthy shop) || negb (truthy customer_id)
           || negb (truthy customer_email) || negb (truthy event_handle)
           || negb (truthy (opt_get product "product_id"))
        then Ret (bad "Missing required fields" 400)
        else
          let customerGID := "gid://shopify/Customer/" +:+ ToString customer_id in
          (d1 <- shopifyGraphQL CustomerEmailQuery (read_variables customerGID) ;;
           let realEmail := opt_get (opt_get d1 "customer") "email" in
           mismatch <- lift (email_mismatch realEmail customer_email) ;;
           if mismatch : bool then Ret (bad "Customer verification failed" 401)
           else read_merge_write merge_direct bad customerGID
                  event_handle event_name product)%prog
    end.

(** A write found in a run is its last exchange; it follows the clock and
    a read that succeeded, and what it writes is the text of the merge of
    what was read, under the same customer id. *)
Definition write_follows_read
    (merge : string → value → value → value → value → result value)
    (tr : list event) : Prop :=
  ∀ i v r,
    tr !! i = Some (EFetch MetafieldsSetMutation v r) →
    ∃ pre gid r1 data now h name product store',
      tr = pre ++ [EFetch MetafieldQuery (read_variables gid) r1; ENow now;
                   EFetch MetafieldsSetMutation v r] ∧
      i = length pre + 2 ∧
      graphql_result r1 = Ok data ∧
      merge now (load_store data) h name product = Ok store' ∧
      v = write_variables gid store'.

End Handlers.

(** ** A runtime for the examples *)

(** Integers and NaN stand for the Numbers: on them the operations below are
    the ones of JavaScript (for integers of magnitude below [2^53], which
    doubles hold exactly).  Used for concrete runs only. *)
(** HMAC-SHA256 and base64, as [crypto] computes them (FIPS 180-4, RFC 2104,
    RFC 4648), on strings of bytes. *)
Module Sha256.
Local Open Scope N_scope.

Definition w32 (x : N) : N := N.land x 0xFFFFFFFF.
Definition add32 (a b : N) : N := w32 (a + b).
Definition rotr (n x : N) : N := N.lor (N.shiftr x n) (w32 (N.shiftl x (32 - n))).
Definition Ch (x y z : N) : N := N.lxor (N.land x y) (N.land (N.lxor x 0xFFFFFFFF) z).
Definition Maj (x y z : N) : N := N.lxor (N.lxor (N.land x y) (N.land x z)) (N.land y z).
Definition Sigma0 (x : N) : N := N.lxor (N.lxor (rotr 2 x) (rotr 13 x)) (rotr 22 x).
Definition Sigma1 (x : N) : N := N.lxor (N.lxor (rotr 6 x) (rotr 11 x)) (rotr 25 x).
Definition sigma0 (x : N) : N := N.lxor (N.lxor (rotr 7 x) (rotr 18 x)) (N.shiftr x 3).
Definition sigma1 (x : N) : N := N.lxor (N.lxor (rotr 17 x) (rotr 19 x)) (N.shiftr x 10).

(** The round constants and the initial hash value are the first 32 bits of
    the fractional parts of the cube roots of the first 64 primes and of the
    square roots of the first 8. *)
Definition is_prime (n : N) : bool :=
  (1 <? n) && forallb (fun d => negb (n mod N.of_nat d =? 0)) (seq 2 (N.to_nat n - 2)).

Fixpoint primes (fuel : nat) (count : nat) (n : N) : list N :=
  match fuel, count with
  | S f, S c => if is_prime n then n :: primes f c (n + 1) else primes f count (n + 1)
  | _, _ => []
  end.

(** the integer cube root, bit by bit from bit [bits] down *)
Fixpoint cube_root (bits : nat) (x r : N) : N :=
  match bits with
  | O => r
  | S b =>
      let r' := r + N.shiftl 1 (N.of_nat b) in
      cube_root b x (if r' * r' * r' <=? x then r' else r)
  end.

Definition K : list N :=
  Eval vm_compute in
    (fun p => w32 (cube_root 36 (N.shiftl p 96) 0)) <$> primes 400 64 2.

Definition state : Type := N * N * N * N * N * N * N * N.

Definition H0 : state :=
  Eval vm_compute in
    match (fun p => w32 (N.sqrt (N.shiftl p 64))) <$> primes 400 8 2 with
    | [a; b; c; d; e; f; g; h] => (a, b, c, d, e, f, g, h)
    | _ => (0, 0, 0, 0, 0, 0, 0, 0)
    end.

(** big-endian words of a block *)
Fixpoint words (bytes : list N) : list N :=
  match bytes with
  | a :: b :: c :: d :: r =>
      (N.shiftl a 24 + N.shiftl b 16 + N.shiftl c 8 + d) :: words r
  | _ => []
  end.

(** the message schedule, latest word first *)
Fixpoint schedule (n : nat) (rev_w : list N) : list N :=
  match n with
  | O => rev_w
  | S n' =>
      let w i := nth i rev_w 0 in
      schedule n'
        (add32 (add32 (sigma1 (w 1%nat)) (w 6%nat))
               (add32 (sigma0 (w 14%nat)) (w 15%nat)) :: rev_w)
  end.

Definition round (s : state) (kw : N * N) : state :=
  let '(a, b, c, d, e, f, g, h) := s in
  let t1 := add32 (add32 (add32 h (Sigma1 e)) (add32 (Ch e f g) (fst kw))) (snd kw) in
  let t2 := add32 (Sigma0 a) (Maj a b c) in
  (add32 t1 t2, a, b, c, add32 d t1, e, f, g).

Definition compress (s : state) (block : list N) : state :=
  let w := rev (schedule 48 (rev (words block))) in
  let '(a, b, c, d, e, f, g, h) := fold_left round (zip K w) s in
  let '(a0, b0, c0, d0, e0, f0, g0, h0) := s in
  (add32 a0 a, add32 b0 b, add32 c0 c, add32 d0 d,
   add32 e0 e, add32 f0 f, add32 g0 g, add32 h0 h).

Definition be (n : nat) (x : N) : list N :=
  (fun i => N.land (N.shiftr x (8 * N.of_nat i)) 255) <$> rev (seq 0 n).

Definition pad (msg : list N) : list N :=
  let len := length msg in
  msg ++ [128] ++ replicate ((119 - len `mod` 64) `mod` 64)%nat 0
      ++ be 8 (8 * N.of_nat len).

Fixpoint blocks (fuel : nat) (bytes : list N) : list (list N) :=
  match fuel, bytes with
  | S f, _ :: _ => take 64 bytes :: blocks f (drop 64 bytes)
  | _, _ => []
  end.

Definition state_bytes (s : state) : list N :=
  let '(a, b, c, d, e, f, g, h) := s in
  be 4 a ++ be 4 b ++ be 4 c ++ be 4 d ++ be 4 e ++ be 4 f ++ be 4 g ++ be 4 h.

Definition sha256_state (msg : list N) : state :=
  let p := pad msg in fold_left compress (blocks (length p) p) H0.

Definition sha256 (msg : list N) : list N := state_bytes (sha256_state msg).

Definition hmac_state (key msg : list N) : state :=
  let k := if decide (64 < length key)%nat then sha256 key else key in
  let k := k ++ replicate (64 - length k)%nat 0 in
  sha256_state ((N.lxor 0x5c <$> k) ++ sha256 ((N.lxor 0x36 <$> k) ++ msg)).

Definition b64_char (x : N) : ascii :=
  ascii_of_N (if x <? 26 then 65 + x
              else if x <? 52 then 97 + (x - 26)
              else if x <? 62 then 48 + (x - 52)
              else if x =? 62 then 43 else 47).

Fixpoint base64 (bytes : list N) : string :=
  match bytes with
  | a :: b :: c :: r =>
      String (b64_char (N.shiftr a 2))
        (String (b64_char (N.land (N.shiftl a 4) 63 + N.shiftr b 4))
           (String (b64_char (N.land (N.shiftl b 2) 63 + N.shiftr c 6))
              (String (b64_char (N.land c 63)) (base64 r))))
  | [a; b] =>
      String (b64_char (N.shiftr a 2))
        (String (b64_char (N.land (N.shiftl a 4) 63 + N.shiftr b 4))
           (String (b64_char (N.land (N.shiftl b 2) 63)) "="))
  | [a] =>
      String (b64_char (N.shiftr a 2))
        (String (b64_char (N.land (N.shiftl a 4) 63)) "==")
  | [] => ""
  end.

Definition bytes_of (s : string) : list N := N_of_ascii <$> list_ascii_of_string s.

Definition hmac_sha256_base64 (key message : string) : string :=
  base64 (state_bytes (hmac_state (bytes_of key) (bytes_of message))).

End Sha256.

Module IntRuntime.

Inductive intnum := INaN | IInt (z : Z).

Definition is_space (c : ascii) : bool :=
  let n := nat_of_ascii c in
  (Nat.leb 9 n && Nat.leb n 13) || Nat.eqb n 32.

Fixpoint drop_spaces (s : string) : string :=
  match s with
  | String c r => if is_space c then drop_spaces r else s
  | EmptyString => s
  end.

Definition digit_of (c : ascii) : option Z :=
  let n := nat_of_ascii c in
  if Nat.leb 48 n && Nat.leb n 57 then Some (Z.of_nat (n - 48)) else None.

(** the digits of [s] up to trailing white space, most significant first *)
Fixpoint digits (acc : Z) (s : string) : option Z :=
  match s with
  | EmptyString => Some acc
  | String c r =>
      match digit_of c with
      | Some d => digits (10 * acc + d) r
      | None => if String.eqb (drop_spaces s) "" then Some acc else None
      end
  end.

Definition unsigned (s : string) : option Z :=
  match s with
  | String c _ => if digit_of c is Some _ then digits 0 s else None
  | EmptyString => None
  end.

Definition string_to_number (s : string) : intnum :=
  match drop_spaces s with
  | EmptyString => IInt 0
  | String "-" r => from_option (fun z => IInt (- z)) INaN (unsigned r)
  | String "+" r => from_option IInt INaN (unsigned r)
  | t => from_option IInt INaN (unsigned t)
  end.

(** the decimal digits of [n], the last one first in [acc] *)
Fixpoint decimal_digits (fuel : nat) (n : N) (acc : string) : string :=
  match fuel with
  | O => acc
  | S f =>
      let acc' := String (ascii_of_N (48 + n `mod` 10)%N) acc in
      if (n <? 10)%N then acc' else decimal_digits f (n / 10)%N acc'
  end.

Definition decimal (z : Z) : string :=
  let n := Z.abs_N z in
  let digits := decimal_digits (S (N.size_nat n)) n "" in
  if (z <? 0)%Z then String "-" digits else digits.

Definition number_to_string (n : intnum) : string :=
  match n with
  | INaN => "NaN"
  | IInt z => decimal z
  end.

#[export] Instance int_numbers : Numbers := {|
  number := intnum;
  num_eqb a b := match a, b with IInt x, IInt y => Z.eqb x y | _, _ => false end;
  num_truthy a := match a with IInt z => negb (Z.eqb z 0) | INaN => false end;
  num_of_nat n := IInt (Z.of_nat n);
  NaN := INaN;
  StringToNumber := string_to_number;
  NumberToString := number_to_string;
|}.


(** [JSON.parse] on the texts whose numbers are integer literals; a fraction,
    an exponent or a [\u] escape is outside this runtime (no result). *)
Definition quote : ascii := "034".
Definition backslash : ascii := "092".

Definition is_json_space (c : ascii) : bool :=
  let n := nat_of_ascii c in
  Nat.eqb n 32 || Nat.eqb n 9 || Nat.eqb n 10 || Nat.eqb n 13.

Fixpoint skip_ws (s : list ascii) : list ascii :=
  match s with
  | c :: r => if is_json_space c then skip_ws r else s
  | [] => []
  end.

Definition unescape (c : ascii) : option ascii :=
  if decide (c = quote) then Some quote
  else if decide (c = backslash) then Some backslash
  else if decide (c = "/"%char) then Some "/"%char
  else if decide (c = "n"%char) then Some "010"%char
  else if decide (c = "r"%char) then Some "013"%char
  else if decide (c = "t"%char) then Some "009"%char
  else if decide (c = "b"%char) then Some "008"%char
  else if decide (c = "f"%char) then Some "012"%char
  else None.

(** the characters of a string literal, after its opening quote *)
Fixpoint parse_chars (s : list ascii) : option (string * list ascii) :=
  match s with
  | [] => None
  | c :: r =>
      if decide (c = quote) then Some (EmptyString, r)
      else if decide (c = backslash) then
        match r with
        | e :: r' =>
            c' ← unescape e; '(t, rest) ← parse_chars r'; Some (String c' t, rest)
        | [] => None
        end
      else if Nat.ltb (nat_of_ascii c) 32 then None
      else '(t, rest) ← parse_chars r; Some (String c t, rest)
  end.

Fixpoint parse_digits (acc : Z) (s : list ascii) : Z * list ascii :=
  match s with
  | c :: r =>
      match digit_of c with
      | Some d => parse_digits (10 * acc + d) r
      | None => (acc, s)
      end
  | [] => (acc, [])
  end.

(** an integer literal: an optional minus sign, then zero or a digit string
    without leading zero; not followed by a fraction or an exponent *)
Definition parse_int (s : list ascii) : option (Z * list ascii) :=
  let '(neg, t) := match s with
                   | "-"%char :: r => (true, r)
                   | _ => (false, s)
                   end in
  match t with
  | c :: r =>
      d ← digit_of c;
      let '(z, rest) := if decide (d = 0%Z) then (0%Z, r) else parse_digits 0 t in
      match rest with
      | c' :: _ =>
          if decide (c' = "."%char ∨ c' = "e"%char ∨ c' = "E"%char
                     ∨ is_Some (digit_of c'))
          then None else Some (if neg : bool then (- z)%Z else z, rest)
      | [] => Some (if neg : bool then (- z)%Z else z, rest)
      end
  | [] => None
  end.

Fixpoint parse_elements (pv : list ascii → option (value * list ascii))
    (n : nat) (s : list ascii) : option (list value * list ascii) :=
  match n with
  | O => None
  | S n' =>
      '(v, r) ← pv s;
      match skip_ws r with
      | ","%char :: r' => '(vs, rest) ← parse_elements pv n' r'; Some (v :: vs, rest)
      | "]"%char :: r' => Some ([v], r')
      | _ => None
      end
  end.

Fixpoint parse_members (pv : list ascii → option (value * list ascii))
    (n : nat) (s : list ascii) : option (list (string * value) * list ascii) :=
  match n with
  | O => None
  | S n' =>
      match skip_ws s with
      | c :: r =>
          if decide (c = quote) then
            '(k, r1) ← parse_chars r;
            match skip_ws r1 with
            | ":"%char :: r2 =>
                '(v, r3) ← pv r2;
                match skip_ws r3 with
                | ","%char :: r4 =>
                    '(kvs, rest) ← parse_members pv n' r4; Some ((k, v) :: kvs, rest)
                | "}"%char :: r4 => Some ([(k, v)], r4)
                | _ => None
                end
            | _ => None
            end
          else None
      | [] => None
      end
  end.

Fixpoint parse_value (fuel : nat) (s : list ascii) : option (value * list ascii) :=
  match fuel with
  | O => None
  | S f =>
      match skip_ws s with
      | "n"%char :: "u"%char :: "l"%char :: "l"%char :: r => Some (VNull, r)
      | "t"%char :: "r"%char :: "u"%char :: "e"%char :: r => Some (VBool true, r)
      | "f"%char :: "a"%char :: "l"%char :: "s"%char :: "e"%char :: r =>
          Some (VBool false, r)
      | "["%char :: r =>
          match skip_ws r with
          | "]"%char :: r' => Some (VArr [], r')
          | _ => '(vs, rest) ← parse_elements (parse_value f) (length r) r;
                 Some (VArr vs, rest)
          end
      | "{"%char :: r =>
          match skip_ws r with
          | "}"%char :: r' => Some (VObj [], r')
          | _ => '(kvs, rest) ← parse_members (parse_value f) (length r) r;
                 (* a repeated name keeps its first place and its last value *)
                 Some (VObj (fold_left (λ o kv, set_assoc kv.1 kv.2 o) kvs []), rest)
          end
      | c :: r =>
          if decide (c = quote) then '(t, rest) ← parse_chars r; Some (VStr t, rest)
          else '(z, rest) ← parse_int (c :: r); Some (VNum (IInt z), rest)
      | [] => None
      end
  end.

Definition json_parse (text : string) : option value :=
  let s := list_ascii_of_string text in
  '(v, rest) ← parse_value (S (length s)) s;
  match skip_ws rest with
  | [] => Some v
  | _ => None
  end.

(** [JSON.stringify] *)
Definition hex_digit (n : nat) : ascii :=
  ascii_of_nat (if Nat.ltb n 10 then 48 + n else 87 + n).

Definition escape (c : ascii) : string :=
  if decide (c = quote) then String backslash (String quote "")
  else if decide (c = backslash) then String backslash (String backslash "")
  else if decide (c = "010"%char) then String backslash "n"
  else if decide (c = "013"%char) then String backslash "r"
  else if decide (c = "009"%char) then String backslash "t"
  else if decide (c = "008"%char) then String backslash "b"
  else if decide (c = "012"%char) then String backslash "f"
  else if Nat.ltb (nat_of_ascii c) 32
  then String backslash
         ("u00" +:+ String (hex_digit (nat_of_ascii c / 16))
                      (String (hex_digit (nat_of_ascii c `mod` 16)) ""))
  else String c "".

Fixpoint escaped (s : string) : string :=
  match s with
  | EmptyString => ""
  | String c r => escape c +:+ escaped r
  end.

Definition quoted (s : string) : string :=
  String quote (escaped s) +:+ String quote "".

Fixpoint json_text (v : value) : string :=
  match v with
  | VUndefined | VNull | VNum INaN => "null"
  | VBool true => "true"
  | VBool false => "false"
  | VNum (IInt z) => decimal z
  | VStr s => quoted s
  | VArr xs =>
      "[" +:+ join ","
                ((fix elements (l : list value) : list string :=
                    match l with
                    | [] => []
                    | x :: r => json_text x :: elements r
                    end) xs) +:+ "]"
  | VObj kvs =>
      "{" +:+ join ","
                ((fix members (l : list (string * value)) : list string :=
                    match l with
                    | [] => []
                    | (_, VUndefined) :: r => members r
                    | (k, x) :: r => (quoted k +:+ ":" +:+ json_text x) :: members r
                    end) kvs) +:+ "}"
  end.

(** [toLowerCase] on ASCII text *)
Definition lower_char (c : ascii) : ascii :=
  let n := nat_of_ascii c in
  if Nat.leb 65 n && Nat.leb n 90 then ascii_of_nat (n + 32) else c.

Fixpoint to_lower (s : string) : string :=
  match s with
  | EmptyString => ""
  | String c r => String (lower_char c) (to_lower r)
  end.

#[export] Instance int_builtins : Builtins := {|
  JSON_parse := json_parse;
  JSON_stringify := json_text;
  toLowerCase := to_lower;
  hmac_sha256_base64 := Sha256.hmac_sha256_base64;
|}.

(** The deployment of the examples. *)
#[export] Instance example_env : Env := {|
  SHOP := "famelia-wine.myshopify.com";
  APP_SECRET := "shpss_secret";
|}.

End IntRuntime.


(** ** Sample data *)

Module Samples.
Export IntRuntime.

Definition now1 : string := "2024-03-05T10:00:00.000Z".
Definition now2 : string := "2024-03-06T18:30:00.000Z".

Definition spring : value := VStr "spring-2024".

(** [{product_id: "101", note: "nice"}], the id sent as a string *)
Definition product_101 : value :=
  VObj [("product_id", VStr "101"); ("note", VStr "nice")].

Definition entry_101 (now : string) : value :=
  VObj [("product_id", VNum (IInt 101)); ("handle", VStr ""); ("title", VStr "");
        ("rating", VNull); ("note", VStr "nice"); ("updated_at", VStr now)].

Definition spring_event (wines : list value) : value :=
  VObj [("id", spring); ("name", spring); ("date", VStr "2024-03-05");
        ("collection_handle", spring); ("wines", VArr wines)].

Definition store_of (events : list value) : value := VObj [("events", VArr events)].

(** the store after the first submission of [product_101] *)
Definition store_once : value := store_of [spring_event [entry_101 now1]].

(** an event of another collection, with two entries *)
Definition autumn_event : value :=
  VObj [("id", VStr "autumn-2023"); ("name", VStr "Autumn"); ("date", VStr "2023-10-01");
        ("collection_handle", VStr "autumn-2023");
        ("wines", VArr [VObj [("product_id", VNum (IInt 7)); ("handle", VStr "rouge");
                              ("title", VStr "Rouge"); ("rating", VNum (IInt 4));
                              ("note", VStr ""); ("updated_at", VStr "2023-10-01T09:00:00.000Z")];
                        VObj [("product_id", VNum (IInt 101)); ("handle", VStr "blanc");
                              ("title", VStr "Blanc"); ("rating", VNull);
                              ("note", VStr "dry"); ("updated_at", VStr "2023-10-01T09:05:00.000Z")]])].

Fixpoint repeat_string (n : nat) (c : ascii) : string :=
  match n with
  | O => ""
  | S m => String c (repeat_string m c)
  end.

(** a product with a rating, a handle and a note of 2500 characters *)
Definition product_long : value :=
  VObj [("product_id", VNum (IInt 101)); ("handle", VStr "blanc");
        ("rating", VNum (IInt 5)); ("note", VStr (repeat_string 2500 "a"))].


(** The body of a submission through the App Proxy, and the request that
    carries it with its signature. *)
Definition proxy_body : string :=
  JSON_stringify (VObj [("event_handle", spring); ("product", product_101)]).

Definition proxy_request : request :=
  {| req_headers := [("x-shopify-proxy-signature",
                      hmac_sha256_base64 APP_SECRET proxy_body)];
     req_search := [("logged_in_customer_id", "42")];
     req_text := proxy_body |}.

(** the same body with product 102 instead of 101: one byte differs *)
Definition proxy_body' : string :=
  JSON_stringify
    (VObj [("event_handle", spring);
           ("product", VObj [("product_id", VStr "102"); ("note", VStr "nice")])]).

(** A direct submission. *)
Definition direct_body : value :=
  VObj [("shop", VStr "famelia-wine.myshopify.com");
        ("customer_id", VNum (IInt 42));
        ("customer_email", VStr "Ann@Example.com");
        ("event_handle", spring);
        ("product", product_101)].

Definition direct_request (origin : string) : request :=
  {| req_headers := [("origin", origin)];
     req_search := [];
     req_text := JSON_stringify direct_body |}.

Definition customer_gid : string := "gid://shopify/Customer/42".

(** Replies of the remote service: a refusal, the customer's e-mail, the
    metafield with a given value, and the acknowledgement of a write. *)
Definition unauthorized : fetch_reply :=
  Response false (JSON_stringify (VObj [("errors", VStr "Unauthorized")])).

Definition email_reply (email : value) : fetch_reply :=
  Response true
    (JSON_stringify
       (VObj [("data", VObj [("customer",
                 VObj [("id", VStr customer_gid); ("email", email)])])])).

Definition metafield_reply (stored : string) : fetch_reply :=
  Response true
    (JSON_stringify
       (VObj [("data", VObj [("customer",
                 VObj [("metafield",
                   VObj [("id", VStr "gid://shopify/Metafield/1");
                         ("type", VStr "json");
                         ("value", VStr stored)])])])])).

Definition write_acknowledged : fetch_reply :=
  Response true
    (JSON_stringify
       (VObj [("data", VObj [("metafieldsSet", VObj [("userErrors", VArr [])])])])).


(** A signed App Proxy request with a given body, and one without the
    customer id the proxy adds for a logged-in customer. *)
Definition signed_request (text : string) : request :=
  {| req_headers := [("x-shopify-proxy-signature",
                      hmac_sha256_base64 APP_SECRET text)];
     req_search := [("logged_in_customer_id", "42")];
     req_text := text |}.

Definition anonymous_request : request :=
  {| req_headers := req_headers proxy_request;
     req_search := [("shop", "famelia-wine.myshopify.com")];
     req_text := proxy_body |}.

(** a product whose id is no number, and one whose note is a number *)
Definition product_abc : value :=
  VObj [("product_id", VStr "abc"); ("note", VStr "nice")].

Definition product_numeric_note : value :=
  VObj [("product_id", VNum (IInt 101)); ("note", VNum (IInt 5))].

(** the data of a write the service refused with two user errors *)
Definition refused_write : value :=
  VObj [("metafieldsSet",
         VObj [("userErrors",
                VArr [VObj [("field", VNull); ("message", VStr "Value is too long")];
                      VObj [("field", VNull); ("message", VStr "Owner not found")]])])].


(** the number of positions at which two strings differ, when they have the
    same length *)
Fixpoint differences (s t : string) : option nat :=
  match s, t with
  | EmptyString, EmptyString => Some 0
  | String a s', String b t' =>
      n ← differences s' t'; Some (if decide (a = b) then n else S n)
  | _, _ => None
  end.

End Samples.

(** * Facts *)

Section ValueFacts.
Context `{Numbers}.

Lemma result_bind_Ok {A B} (r : result A) (f : A → result B) (b : B) :
  result_bind r f = Ok b ↔ ∃ a, r = Ok a ∧ f a = Ok b.
Proof.
  destruct r as [a|e]; simpl; split.
  - eauto.
  - intros (a' & [= <-] & ?). done.
  - done.
  - intros (? & [=] & _).
Qed.

Lemma get_opt_get (v w : value) (k : string) : get v k = Ok w → opt_get v k = w.
Proof. destruct v; simpl; congruence. Qed.

Lemma get_Ok_array_object (v : value) (k : string) (xs : list value) :
  get v k = Ok (VArr xs) → ∃ kvs, v = VObj kvs ∧ assoc k kvs = Some (VArr xs).
Proof.
  destruct v; simpl; try discriminate. intros [= Hd]. eexists; split; [done|].
  destruct (assoc k kvs); simpl in Hd; congruence.
Qed.

Lemma assoc_set_assoc_eq k v (kvs : list (string * value)) :
  assoc k (set_assoc k v kvs) = Some v.
Proof.
  induction kvs as [|[k' v'] r IH]; simpl.
  - by rewrite String.eqb_refl.
  - destruct (String.eqb k' k) eqn:E; simpl; by rewrite E.
Qed.

Lemma assoc_set_assoc_ne k k' v (kvs : list (string * value)) :
  k ≠ k' → assoc k' (set_assoc k v kvs) = assoc k' kvs.
Proof.
  intros Hne. induction kvs as [|[k0 v0] r IH]; simpl.
  - destruct (String.eqb k k') eqn:E; [|done].
    apply String.eqb_eq in E. done.
  - destruct (String.eqb k0 k) eqn:E; simpl.
    + apply String.eqb_eq in E. subst k0.
      destruct (String.eqb k k') eqn:E'; [|done].
      apply String.eqb_eq in E'. done.
    + by rewrite IH.
Qed.

Lemma set_assoc_set_assoc k v v' (kvs : list (string * value)) :
  set_assoc k v (set_assoc k v' kvs) = set_assoc k v kvs.
Proof.
  induction kvs as [|[k0 v0] r IH]; simpl.
  - by rewrite String.eqb_refl.
  - destruct (String.eqb k0 k) eqn:E; simpl; rewrite E; [done|by rewrite IH].
Qed.

Lemma set_assoc_id k v (kvs : list (string * value)) :
  assoc k kvs = Some v → set_assoc k v kvs = kvs.
Proof.
  induction kvs as [|[k0 v0] r IH]; simpl; [done|].
  destruct (String.eqb k0 k); [by intros [= ->]|]. intros ?. by rewrite IH.
Qed.

Lemma get_set_prop_eq k v (kvs : list (string * value)) :
  get (set_prop k v (VObj kvs)) k = Ok v.
Proof. simpl. by rewrite assoc_set_assoc_eq. Qed.

Lemma opt_get_set_prop_eq k v (kvs : list (string * value)) :
  opt_get (set_prop k v (VObj kvs)) k = v.
Proof. simpl. by rewrite assoc_set_assoc_eq. Qed.

Lemma opt_get_set_prop_ne k k' v (o : value) :
  k ≠ k' → opt_get (set_prop k v o) k' = opt_get o k'.
Proof. intros. destruct o; simpl; try done. by rewrite assoc_set_assoc_ne. Qed.

Lemma set_prop_set_prop k v v' (o : value) :
  set_prop k v (set_prop k v' o) = set_prop k v o.
Proof. destruct o; simpl; try done. by rewrite set_assoc_set_assoc. Qed.

(** [findIndex] finds nothing exactly when the test is false everywhere. *)
Lemma findIndex_None (p : value → result bool) (xs : list value) :
  findIndex p xs = Ok None ↔ Forall (λ x, p x = Ok false) xs.
Proof.
  induction xs as [|x r IH]; simpl.
  - split; [constructor|done].
  - rewrite Forall_cons, <- IH.
    destruct (p x) as [[|]|e]; simpl.
    + split; [done|]. by intros [[=] _].
    + destruct (findIndex p r) as [[i|]|e]; simpl.
      * split; [done|]. by intros [_ [=]].
      * done.
      * split; [done|]. by intros [_ [=]].
    + split; [done|]. by intros [[=] _].
Qed.

(** It returns the first position where the test is true, having found it
    false, without exception, before. *)
Lemma findIndex_Some (p : value → result bool) (xs : list value) (i : nat) :
  findIndex p xs = Ok (Some i) ↔
  (∃ x, xs !! i = Some x ∧ p x = Ok true) ∧
  Forall (λ x, p x = Ok false) (take i xs).
Proof.
  revert i. induction xs as [|x r IH]; intros i; simpl.
  - split; [done|]. by intros [(? & ? & _) _].
  - destruct (p x) as [[|]|e] eqn:Hp; simpl.
    + split.
      * intros [= <-]. split; [by exists x|]. simpl. constructor.
      * intros [_ Hall]. destruct i as [|i]; [done|].
        simpl in Hall. apply Forall_cons in Hall as [Hx _]. congruence.
    + destruct i as [|i].
      * split.
        -- destruct (findIndex p r) as [[j|]|e]; simpl; discriminate.
        -- intros [(y & [= <-] & Hy) _]. congruence.
      * simpl. specialize (IH i). split.
        -- intros Hb. assert (findIndex p r = Ok (Some i)) as Hr.
           { destruct (findIndex p r) as [[j|]|e]; simpl in Hb; congruence. }
           apply IH in Hr as [? ?]. split; [done|by constructor].
        -- intros [Hy Hall]. apply Forall_cons in Hall as [_ Hall].
           assert (findIndex p r = Ok (Some i)) as -> by by apply IH.
           done.
    + split; [done|]. intros [(y & Hy & Hpy) Hall]. destruct i as [|i].
      { simpl in Hy. congruence. }
      simpl in Hall. apply Forall_cons in Hall as [? _]. congruence.
Qed.

Lemma findIndex_Some_lt (p : value → result bool) (xs : list value) (i : nat) :
  findIndex p xs = Ok (Some i) → i < length xs.
Proof.
  intros [(x & Hx & _) _]%findIndex_Some. by eapply lookup_lt_Some.
Qed.

(** It returns whenever the test does. *)
Lemma findIndex_total (p : value → result bool) (xs : list value) :
  Forall (λ x, ∃ b, p x = Ok b) xs → ∃ o, findIndex p xs = Ok o.
Proof.
  induction 1 as [|x r [b Hb] _ [o IH]]; simpl; [by eexists|].
  rewrite Hb. simpl. destruct b; [by eexists|]. rewrite IH. simpl. by eexists.
Qed.

End ValueFacts.

Section MergeFacts.
Context `{Numbers}.

Lemma build_entry_Ok (now : string) (product entry : value) :
  build_entry now product = Ok entry →
  ∃ note',
    slice0 2000 (js_or (opt_get product "note") (VStr "")) = Ok note' ∧
    product ≠ VUndefined ∧ product ≠ VNull ∧
    entry =
      VObj [("product_id", VNum (ToNumber (opt_get product "product_id")));
            ("handle", js_or (opt_get product "handle") (VStr ""));
            ("title", js_or (opt_get product "title") (VStr ""));
            ("rating", match opt_get product "rating" with
                       | VNum n => VNum n
                       | _ => VNull
                       end);
            ("note", note');
            ("updated_at", VStr now)].
Proof.
  unfold build_entry. intros Hb.
  destruct product as [| | | | | |kvs]; simpl in Hb; try discriminate.
  1-4: by injection Hb as <-; eexists.
  simpl. destruct (slice0 _ _) as [note'|]; [|discriminate].
  simpl in Hb. injection Hb as <-. exists note'. repeat split; try done.
  repeat f_equal. by destruct (default VUndefined (assoc "rating" kvs)).
Qed.

Lemma build_entry_total (now : string) (product note' : value) :
  product ≠ VUndefined → product ≠ VNull →
  slice0 2000 (js_or (opt_get product "note") (VStr "")) = Ok note' →
  ∃ entry, build_entry now product = Ok entry.
Proof.
  intros ? ? Hs. unfold build_entry.
  destruct product as [| | | | | |kvs]; try done; simpl in *;
    first [by eexists | rewrite Hs; simpl; by eexists].
Qed.

Lemma build_entry_get_product_id (now : string) (product entry : value) :
  build_entry now product = Ok entry →
  get product "product_id" = Ok (opt_get product "product_id").
Proof.
  intros (_ & _ & ? & ? & _)%build_entry_Ok. by destruct product.
Qed.

Lemma find_or_create_absent (now : string) (h name : value) (es : list value) :
  Forall (λ e, event_matches h e = Ok false) es →
  find_or_create_event now h name es = Ok (length es, es ++ [new_event now h name]).
Proof.
  intros Hall%findIndex_None. unfold find_or_create_event. by rewrite Hall.
Qed.

(** What [upsert_wine] returns is the event with its [wines] array changed:
    the entry is put where [findIndex] found the key, or last. *)
Lemma upsert_wine_Ok key_of (now : string) (product evt evt' : value) :
  upsert_wine key_of now product evt = Ok evt' →
  ∃ kvs ws idx entry,
    evt = VObj kvs ∧ assoc "wines" kvs = Some (VArr ws) ∧
    findIndex (wine_matches (key_of (opt_get product "product_id"))) ws = Ok idx ∧
    build_entry now product = Ok entry ∧
    evt' = set_prop "wines"
             (VArr match idx with
                   | None => ws ++ [entry]
                   | Some i => <[i:=entry]> ws
                   end) evt.
Proof.
  unfold upsert_wine. intros Hu.
  apply result_bind_Ok in Hu as (wines & Hw & Hu).
  apply result_bind_Ok in Hu as (ws & Hws & Hu).
  apply result_bind_Ok in Hu as (pid & Hpid & Hu).
  apply result_bind_Ok in Hu as (idx & Hidx & Hu).
  apply result_bind_Ok in Hu as (entry & Hentry & [= <-]).
  destruct wines; try discriminate. injection Hws as ->.
  apply get_Ok_array_object in Hw as (kvs & -> & Hkvs).
  apply get_opt_get in Hpid as <-.
  by exists kvs, ws, idx, entry.
Qed.

Lemma upsert_wine_total key_of (now : string) (product entry : value)
    (kvs : list (string * value)) (ws : list value) :
  assoc "wines" kvs = Some (VArr ws) →
  Forall (λ w, w ≠ VUndefined ∧ w ≠ VNull) ws →
  build_entry now product = Ok entry →
  ∃ evt', upsert_wine key_of now product (VObj kvs) = Ok evt'.
Proof.
  intros Hw Hall Hentry. unfold upsert_wine. simpl. rewrite Hw. simpl.
  rewrite (build_entry_get_product_id _ _ _ Hentry). simpl.
  destruct (findIndex_total
              (wine_matches (key_of (opt_get product "product_id"))) ws)
    as [idx ->].
  { eapply Forall_impl; [exact Hall|]. intros w [? ?]. unfold wine_matches.
    destruct w; try done; simpl; by eexists. }
  simpl. rewrite Hentry. simpl. by eexists.
Qed.

(** A truthy handle is only matched by an object. *)
Lemma event_matches_object (h e : value) :
  truthy h = true → event_matches h e = Ok true → ∃ kvs, e = VObj kvs.
Proof.
  intros Hh. unfold event_matches.
  destruct e; simpl; try discriminate; try by eexists.
  all: destruct h; simpl in *; discriminate.
Qed.

Lemma find_or_create_found (now : string) (h name : value) (es : list value) (i : nat) :
  truthy h = true →
  findIndex (event_matches h) es = Ok (Some i) →
  find_or_create_event now h name es = Ok (i, es).
Proof.
  intros Hh Hf. unfold find_or_create_event. rewrite Hf. simpl.
  apply findIndex_Some in Hf as [(e & -> & He) _]. simpl.
  by destruct (event_matches_object _ _ Hh He) as [kvs ->].
Qed.

(** The merge when no event has the handle. *)
Lemma merge_store_absent key_of (now : string)
    (store h name product entry : value) (es : list value) :
  get store "events" = Ok (VArr es) →
  Forall (λ e, event_matches h e = Ok false) es →
  build_entry now product = Ok entry →
  merge_store key_of now store h name product =
  Ok (set_prop "events"
        (VArr (es ++ [VObj [("id", h);
                            ("name", if truthy name then name else h);
                            ("date", VStr (str_take 10 now));
                            ("collection_handle", h);
                            ("wines", VArr [entry])]]))
        store).
Proof.
  intros Hev Hall Hentry. unfold merge_store. rewrite Hev. simpl.
  rewrite (find_or_create_absent _ _ _ _ Hall). simpl.
  rewrite lookup_app_r, Nat.sub_diag by done. simpl.
  unfold upsert_wine. simpl.
  rewrite (build_entry_get_product_id _ _ _ Hentry). simpl.
  rewrite Hentry. simpl.
  do 3 f_equal.
  rewrite insert_app_r_alt, Nat.sub_diag by done. done.
Qed.

(** The merge when [find] returns the event at position [i]. *)
Lemma merge_store_found key_of (now : string)
    (store h name product store' : value) (es : list value) (i : nat) :
  truthy h = true →
  get store "events" = Ok (VArr es) →
  findIndex (event_matches h) es = Ok (Some i) →
  merge_store key_of now store h name product = Ok store' →
  ∃ evt evt',
    es !! i = Some evt ∧
    upsert_wine key_of now product evt = Ok evt' ∧
    store' = set_prop "events" (VArr (<[i:=evt']> es)) store.
Proof.
  intros Hh Hev Hf. unfold merge_store. rewrite Hev. simpl.
  rewrite (find_or_create_found _ _ _ _ _ Hh Hf). simpl.
  pose proof Hf as [(evt & Hevt & _) _]%findIndex_Some. rewrite Hevt. simpl.
  intros (evt' & Hu & [= <-])%result_bind_Ok. by exists evt, evt'.
Qed.

Lemma merge_store_found_total key_of (now : string)
    (store h name product entry : value) (es ws : list value) (i : nat)
    (kvs : list (string * value)) :
  truthy h = true →
  get store "events" = Ok (VArr es) →
  findIndex (event_matches h) es = Ok (Some i) →
  es !! i = Some (VObj kvs) →
  assoc "wines" kvs = Some (VArr ws) →
  Forall (λ w, w ≠ VUndefined ∧ w ≠ VNull) ws →
  build_entry now product = Ok entry →
  ∃ store', merge_store key_of now store h name product = Ok store'.
Proof.
  intros Hh Hev Hf Hevt Hw Hall Hentry. unfold merge_store. rewrite Hev. simpl.
  rewrite (find_or_create_found _ _ _ _ _ Hh Hf). simpl. rewrite Hevt. simpl.
  destruct (upsert_wine_total key_of _ _ _ _ _ Hw Hall Hentry) as [evt' ->].
  simpl. by eexists.
Qed.

End MergeFacts.


Section InvariantFacts.
Context `{NumbersLaws}.

Lemma strict_eq_sym (a b : value) : strict_eq a b = strict_eq b a.
Proof.
  destruct a, b; simpl; try done.
  - by destruct b, b0.
  - apply num_eqb_sym.
  - apply String.eqb_sym.
Qed.

Lemma strict_eq_trans (a b c : value) :
  strict_eq a b = true → strict_eq b c = true → strict_eq a c = true.
Proof.
  destruct a, b; simpl; try done; destruct c; simpl; try done.
  - by destruct b, b0, b1.
  - apply num_eqb_trans.
  - intros ->%String.eqb_eq ->%String.eqb_eq. apply String.eqb_refl.
Qed.

(** A value strictly equal to something is strictly equal to itself. *)
Lemma strict_eq_refl_of (a b : value) : strict_eq a b = true → strict_eq b b = true.
Proof.
  intros Hab. eapply strict_eq_trans; [|exact Hab]. by rewrite strict_eq_sym.
Qed.

Lemma keys_distinct_snoc (key : value → value) (xs : list value) (y : value) :
  keys_distinct key xs →
  Forall (λ x, strict_eq (key x) (key y) = false) xs →
  keys_distinct key (xs ++ [y]).
Proof.
  intros Hd Hall i j a b Ha Hb Hab.
  rewrite Forall_lookup in Hall.
  apply lookup_snoc_Some in Ha as [[Hi Ha]|[-> <-]];
    apply lookup_snoc_Some in Hb as [[Hj Hb]|[-> <-]].
  - by eapply Hd.
  - specialize (Hall _ _ Ha). congruence.
  - specialize (Hall _ _ Hb). rewrite strict_eq_sym in Hab. congruence.
  - done.
Qed.

Lemma keys_distinct_replace (key : value → value) (xs : list value)
    (j : nat) (x y : value) :
  keys_distinct key xs →
  xs !! j = Some x →
  strict_eq (key x) (key y) = true →
  keys_distinct key (<[j:=y]> xs).
Proof.
  intros Hd Hx Hxy a b u v Hu Hv Huv.
  apply list_lookup_insert_Some in Hu as [(<- & <- & _)|[Ha Hu]];
    apply list_lookup_insert_Some in Hv as [(<- & <- & _)|[Hb Hv]].
  - done.
  - exfalso. apply Hb. eapply Hd; [exact Hx|exact Hv|].
    by eapply strict_eq_trans.
  - exfalso. apply Ha. eapply Hd; [exact Hx|exact Hu|].
    eapply strict_eq_trans; [exact Hxy|]. by rewrite strict_eq_sym.
  - by eapply Hd.
Qed.

Lemma keys_distinct_same_key (key : value → value) (xs : list value)
    (j : nat) (x y : value) :
  keys_distinct key xs →
  xs !! j = Some x →
  key y = key x →
  keys_distinct key (<[j:=y]> xs).
Proof.
  intros Hd Hx Hxy a b u v Hu Hv Huv.
  apply list_lookup_insert_Some in Hu as [(<- & <- & _)|[Ha Hu]];
    apply list_lookup_insert_Some in Hv as [(<- & <- & _)|[Hb Hv]].
  - done.
  - rewrite Hxy in Huv. by eapply Hd.
  - rewrite Hxy in Huv. by eapply Hd.
  - by eapply Hd.
Qed.

Lemma wine_matches_key (key w : value) (b : bool) :
  wine_matches key w = Ok b → strict_eq (opt_get w "product_id") key = b.
Proof.
  unfold wine_matches. intros (p & Hp & [= <-])%result_bind_Ok.
  by apply get_opt_get in Hp as ->.
Qed.

Lemma event_matches_key (h e : value) (b : bool) :
  event_matches h e = Ok b → strict_eq (opt_get e "collection_handle") h = b.
Proof.
  unfold event_matches. intros (p & Hp & [= <-])%result_bind_Ok.
  by apply get_opt_get in Hp as ->.
Qed.

Lemma build_entry_key (now : string) (product entry : value) :
  build_entry now product = Ok entry →
  opt_get entry "product_id" = VNum (ToNumber (opt_get product "product_id")).
Proof. by intros (? & _ & _ & _ & ->)%build_entry_Ok. Qed.

(** The wines of an event keep distinct keys when the entry is keyed by the
    value the stored keys were compared with. *)
Lemma upsert_wine_unique key_of (now : string) (product evt evt' : value)
    (ws : list value) :
  key_of (opt_get product "product_id")
    = VNum (ToNumber (opt_get product "product_id")) →
  get evt "wines" = Ok (VArr ws) → unique_wines ws →
  upsert_wine key_of now product evt = Ok evt' →
  ∃ ws', get evt' "wines" = Ok (VArr ws') ∧ unique_wines ws' ∧
         ∀ k, k ≠ "wines" → opt_get evt' k = opt_get evt k.
Proof.
  intros Hkey Hws Hu (kvs & ws0 & idx & entry & -> & Hw & Hidx & Hentry & ->)%upsert_wine_Ok.
  simpl in Hws. rewrite Hw in Hws. injection Hws as ->.
  eexists. split; [apply get_set_prop_eq|]. split.
  - rewrite Hkey in Hidx. pose proof (build_entry_key _ _ _ Hentry) as Hk.
    destruct idx as [j|].
    + apply findIndex_Some in Hidx as [(w & Hj & Hm%wine_matches_key) _].
      eapply keys_distinct_replace; [exact Hu|exact Hj|]. by rewrite Hk.
    + apply findIndex_None in Hidx. apply keys_distinct_snoc; [done|].
      eapply Forall_impl; [exact Hidx|]. intros w Hm%wine_matches_key.
      by rewrite Hk.
  - intros k Hk. by apply opt_get_set_prop_ne.
Qed.

(** The invariants are kept by a merge that compares the stored keys with
    the key it writes. *)
Lemma merge_store_invariant key_of (now : string)
    (store h name product store' : value) :
  truthy h = true →
  key_of (opt_get product "product_id")
    = VNum (ToNumber (opt_get product "product_id")) →
  store_invariant store →
  merge_store key_of now store h name product = Ok store' →
  store_invariant store'.
Proof.
  intros Hh Hkey (es & Hev & Hue & Hall) Hm.
  destruct (get_Ok_array_object _ _ _ Hev) as (skvs & -> & _).
  destruct (findIndex (event_matches h) es) as [[i|]|e] eqn:Hf.
  - destruct (merge_store_found _ _ _ _ _ _ _ _ _ Hh Hev Hf Hm)
      as (evt & evt' & Hevt & Hup & ->).
    rewrite Forall_lookup in Hall. destruct (Hall _ _ Hevt) as (ws & Hws & Huw).
    destruct (upsert_wine_unique _ _ _ _ _ _ Hkey Hws Huw Hup)
      as (ws' & Hws' & Huw' & Hframe).
    eexists. split; [apply get_set_prop_eq|]. split.
    + eapply keys_distinct_same_key; [exact Hue|exact Hevt|]. by apply Hframe.
    + apply Forall_lookup. intros j e' [(<- & <- & _)|[_ He']]%list_lookup_insert_Some.
      * by exists ws'.
      * by eapply Hall.
  - pose proof Hf as Hnone%findIndex_None.
    assert (∃ entry, build_entry now product = Ok entry) as [entry Hentry].
    { unfold merge_store in Hm. rewrite Hev in Hm. simpl in Hm.
      rewrite (find_or_create_absent _ _ _ _ Hnone) in Hm. simpl in Hm.
      apply result_bind_Ok in Hm as (evt' & Hup & _).
      apply upsert_wine_Ok in Hup as (_ & _ & _ & entry & _ & _ & _ & ? & _).
      by exists entry. }
    rewrite (merge_store_absent _ _ _ _ _ _ _ _ Hev Hnone Hentry) in Hm.
    injection Hm as <-.
    eexists. split; [apply get_set_prop_eq|]. split.
    + apply keys_distinct_snoc; [done|].
      eapply Forall_impl; [exact Hnone|]. by intros e He%event_matches_key.
    + apply Forall_app. split; [done|]. constructor; [|constructor].
      exists [entry]. split; [done|].
      intros a b u v Hu Hv _.
      apply list_lookup_singleton_Some in Hu as [-> _].
      by apply list_lookup_singleton_Some in Hv as [-> _].
  - unfold merge_store, find_or_create_event in Hm. rewrite Hev in Hm.
    simpl in Hm. by rewrite Hf in Hm.
Qed.

End InvariantFacts.


Section InPlace.
Context `{NumbersLaws}.

(** An entry found is replaced where it is. *)
Lemma merge_store_in_place key_of (now : string)
    (store h name product evt entry : value) (es ws : list value) (i j : nat) :
  truthy h = true →
  get store "events" = Ok (VArr es) →
  findIndex (event_matches h) es = Ok (Some i) →
  es !! i = Some evt →
  get evt "wines" = Ok (VArr ws) →
  findIndex (wine_matches (key_of (opt_get product "product_id"))) ws = Ok (Some j) →
  build_entry now product = Ok entry →
  merge_store key_of now store h name product =
  Ok (set_prop "events"
        (VArr (<[i:=set_prop "wines" (VArr (<[j:=entry]> ws)) evt]> es)) store).
Proof.
  intros Hh Hev Hf Hevt Hws Hidx Hentry. unfold merge_store.
  rewrite Hev. simpl. rewrite (find_or_create_found _ _ _ _ _ Hh Hf). simpl.
  rewrite Hevt. simpl. unfold upsert_wine. rewrite Hws. simpl.
  rewrite (build_entry_get_product_id _ _ _ Hentry). simpl.
  rewrite Hidx. simpl. by rewrite Hentry.
Qed.

(** Merging the submission again changes nothing more. *)
Lemma merge_store_again key_of (now : string)
    (store h name product evt entry : value) (es ws : list value) (i j : nat) :
  truthy h = true →
  key_of (opt_get product "product_id")
    = VNum (ToNumber (opt_get product "product_id")) →
  get store "events" = Ok (VArr es) →
  findIndex (event_matches h) es = Ok (Some i) →
  es !! i = Some evt →
  get evt "wines" = Ok (VArr ws) →
  findIndex (wine_matches (key_of (opt_get product "product_id"))) ws = Ok (Some j) →
  build_entry now product = Ok entry →
  let store' :=
    set_prop "events"
      (VArr (<[i:=set_prop "wines" (VArr (<[j:=entry]> ws)) evt]> es)) store in
  merge_store key_of now store' h name product = Ok store'.
Proof.
  intros Hh Hkey Hev Hf Hevt Hws Hidx Hentry store'.
  destruct (get_Ok_array_object _ _ _ Hev) as (skvs & -> & _).
  destruct (get_Ok_array_object _ _ _ Hws) as (ekvs & -> & Hw).
  pose proof (findIndex_Some_lt _ _ _ Hf) as Hi.
  pose proof (findIndex_Some_lt _ _ _ Hidx) as Hj.
  set (evt' := set_prop "wines" (VArr (<[j:=entry]> ws)) (VObj ekvs)) in *.
  rewrite (merge_store_in_place key_of now store' h name product evt' entry
             (<[i:=evt']> es) (<[j:=entry]> ws) i j); try done.
  - subst store'. rewrite list_insert_insert_eq, set_prop_set_prop.
    do 4 f_equal. subst evt'. by rewrite list_insert_insert_eq, set_prop_set_prop.
  - apply get_set_prop_eq.
  - apply findIndex_Some. apply findIndex_Some in Hf as [(e & He & Hm) Hbefore].
    split.
    + exists evt'. split; [by apply list_lookup_insert_eq|].
      assert (e = VObj ekvs) as -> by congruence.
      unfold event_matches in *. subst evt'. simpl in *.
      by rewrite assoc_set_assoc_ne.
    + by rewrite take_insert_ge.
  - by apply list_lookup_insert_eq.
  - apply get_set_prop_eq.
  - apply findIndex_Some. apply findIndex_Some in Hidx as [(w & Hwj & Hm) Hbefore].
    split.
    + exists entry. split; [by apply list_lookup_insert_eq|].
      apply wine_matches_key in Hm. rewrite Hkey in *.
      apply strict_eq_refl_of in Hm.
      unfold wine_matches. destruct (build_entry_Ok _ _ _ Hentry) as (? & _ & _ & _ & ->).
      simpl in *. by rewrite Hm.
    + by rewrite take_insert_ge.
Qed.

(** Hence any number of repetitions gives what one merge gives. *)
Lemma merge_store_idempotent key_of (now : string)
    (store h name product evt entry : value) (es ws : list value) (i j n : nat) :
  truthy h = true →
  key_of (opt_get product "product_id")
    = VNum (ToNumber (opt_get product "product_id")) →
  get store "events" = Ok (VArr es) →
  findIndex (event_matches h) es = Ok (Some i) →
  es !! i = Some evt →
  get evt "wines" = Ok (VArr ws) →
  findIndex (wine_matches (key_of (opt_get product "product_id"))) ws = Ok (Some j) →
  build_entry now product = Ok entry →
  merge_times (merge_store key_of) (S n) now store h name product =
  merge_store key_of now store h name product.
Proof.
  intros Hh Hkey Hev Hf Hevt Hws Hidx Hentry.
  pose proof (merge_store_again key_of now store h name product evt entry
                es ws i j Hh Hkey Hev Hf Hevt Hws Hidx Hentry) as Hagain.
  simpl in Hagain.
  rewrite (merge_store_in_place _ _ _ _ name _ _ _ _ _ _ _ Hh Hev Hf Hevt Hws Hidx Hentry).
  simpl. rewrite <- (merge_store_in_place _ _ _ _ name _ _ _ _ _ _ _ Hh Hev Hf Hevt Hws Hidx Hentry).
  rewrite (merge_store_in_place _ _ _ _ name _ _ _ _ _ _ _ Hh Hev Hf Hevt Hws Hidx Hentry).
  simpl.
  induction n as [|n IH]; simpl; [done|].
  rewrite Hagain. simpl. exact IH.
Qed.

End InPlace.

Section RunFacts.
Context `{Numbers}.

Lemma runs_Ret_inv {A} (a : A) tr o : runs (Ret a) tr o → tr = [] ∧ o = Ok a.
Proof. by inversion 1. Qed.

Lemma runs_Throw_inv {A} e tr (o : result A) :
  runs (Throw e) tr o → tr = [] ∧ o = Thrown e.
Proof. by inversion 1. Qed.

Lemma runs_Fetch_inv {A} q v (k : fetch_reply → prog A) tr o :
  runs (Fetch q v k) tr o → ∃ r tr', tr = EFetch q v r :: tr' ∧ runs (k r) tr' o.
Proof. inversion 1; subst. by eexists _, _. Qed.

Lemma runs_Now_inv {A} (k : string → prog A) tr o :
  runs (Now k) tr o → ∃ t tr', tr = ENow t :: tr' ∧ runs (k t) tr' o.
Proof. inversion 1; subst. by eexists _, _. Qed.

Lemma runs_lift {A} (r : result A) tr o : runs (lift r) tr o ↔ tr = [] ∧ o = r.
Proof.
  destruct r; simpl; split.
  - apply runs_Ret_inv.
  - intros [-> ->]. constructor.
  - apply runs_Throw_inv.
  - intros [-> ->]. constructor.
Qed.

(** A run is determined by what the world answered. *)
Lemma runs_deterministic {A} (p : prog A) tr o1 o2 :
  runs p tr o1 → runs p tr o2 → o1 = o2.
Proof.
  induction 1; inversion 1; subst; try done.
  - apply IHruns. congruence.
  - apply IHruns. congruence.
Qed.

End RunFacts.

Section HandlerFacts.
Context `{Builtins} `{Env}.

Lemma runs_shopifyGraphQL q v tr (o : result value) :
  runs (shopifyGraphQL q v) tr o ↔ ∃ r, tr = [EFetch q v r] ∧ o = graphql_result r.
Proof.
  unfold shopifyGraphQL. split.
  - intros (r & tr' & -> & [-> ->]%runs_lift)%runs_Fetch_inv. by exists r.
  - intros (r & -> & ->). constructor. by apply runs_lift.
Qed.

(** The runs of the read-merge-write: the read fails and the exception
    leaves the handler; or the merge throws; or the write is issued with the
    merged store and its reply decides the outcome. *)
Lemma runs_read_merge_write merge fail gid (h name product : value) tr o :
  runs (read_merge_write merge fail gid h name product) tr o ↔
  (∃ r1 e,
      tr = [EFetch MetafieldQuery (read_variables gid) r1] ∧
      graphql_result r1 = Thrown e ∧ o = Thrown e) ∨
  (∃ r1 data now e,
      tr = [EFetch MetafieldQuery (read_variables gid) r1; ENow now] ∧
      graphql_result r1 = Ok data ∧
      merge now (load_store data) h name product = Thrown e ∧ o = Thrown e) ∨
  (∃ r1 data now store' r2,
      tr = [EFetch MetafieldQuery (read_variables gid) r1; ENow now;
            EFetch MetafieldsSetMutation (write_variables gid store') r2] ∧
      graphql_result r1 = Ok data ∧
      merge now (load_store data) h name product = Ok store' ∧
      o = (data2 <- graphql_result r2 ;; respond fail data2)).
Proof.
  unfold read_merge_write, shopifyGraphQL. simpl. split.
  - intros (r1 & tr1 & -> & Hr)%runs_Fetch_inv.
    destruct (graphql_result r1) as [data|e] eqn:Hg; simpl in Hr.
    + apply runs_Now_inv in Hr as (now & tr2 & -> & Hr).
      destruct (merge now (load_store data) h name product) as [store'|e] eqn:Hm;
        simpl in Hr.
      * apply runs_Fetch_inv in Hr as (r2 & tr3 & -> & Hr).
        right; right. exists r1, data, now, store', r2.
        destruct (graphql_result r2) as [data2|e]; simpl in *.
        -- by apply runs_lift in Hr as [-> ->].
        -- by apply runs_Throw_inv in Hr as [-> ->].
      * apply runs_Throw_inv in Hr as [-> ->].
        right; left. by exists r1, data, now, e.
    + apply runs_Throw_inv in Hr as [-> ->]. left. by exists r1, e.
  - intros [(r1 & e & -> & Hg & ->)|[(r1 & data & now & e & -> & Hg & Hm & ->)|
            (r1 & data & now & store' & r2 & -> & Hg & Hm & ->)]].
    + constructor. rewrite Hg. constructor.
    + constructor. rewrite Hg. simpl. constructor. rewrite Hm. constructor.
    + constructor. rewrite Hg. simpl. constructor. rewrite Hm. simpl.
      constructor. destruct (graphql_result r2); simpl.
      * by apply runs_lift.
      * constructor.
Qed.

(** A reply that is not a success, or that reports errors, makes
    [shopifyGraphQL] throw. *)
Lemma graphql_result_failure (ok : bool) (text : string) :
  ok = false ∨
  (∃ json, JSON_parse text = Some json ∧ truthy (opt_get json "errors") = true) →
  ∃ e, graphql_result (Response ok text) = Thrown e.
Proof.
  intros Hfail. simpl. destruct (JSON_parse text) as [json|]; [|by eexists].
  destruct (get json "errors") as [errors|e] eqn:He; simpl; [|by eexists].
  apply get_opt_get in He as <-.
  destruct Hfail as [->|(json' & [= <-] & ->)]; simpl; [by eexists|].
  rewrite orb_true_r. by eexists.
Qed.

(** What [respond] returns is the success response or a 500. *)
Lemma respond_Ok fail (data2 : value) (resp : response) :
  respond fail data2 = Ok resp → resp = ok_response ∨ ∃ msg, resp = fail msg 500.
Proof.
  unfold respond. destruct (has_length _).
  - intros (msg & _ & [= <-])%result_bind_Ok. right. by exists msg.
  - intros [= <-]. by left.
Qed.

(** The signature check passes exactly when the header, or the empty string
    in its absence, is the digest. *)
Lemma verifyProxySignature_spec (hdrs : list (string * string)) (raw : string) :
  verifyProxySignature hdrs raw = true ↔
  default "" (lookup_first "x-shopify-proxy-signature" hdrs)
    = hmac_sha256_base64 APP_SECRET raw.
Proof.
  unfold verifyProxySignature, timingSafeEqual, Buffer_from.
  set (sig := default "" _). set (digest := hmac_sha256_base64 _ _).
  destruct (Nat.eqb _ _).
  - rewrite bool_decide_eq_true. split.
    + intros Heq. apply (f_equal string_of_list_ascii) in Heq.
      by rewrite !string_of_list_ascii_of_string in Heq.
    + by intros ->.
  - rewrite String.eqb_eq. split; congruence.
Qed.

Lemma origin_allowed_spec (origin : option string) :
  origin_allowed origin = true ↔ ∃ o, origin = Some o ∧ o ∈ ALLOWED_ORIGINS.
Proof.
  destruct origin as [o|]; simpl.
  - rewrite bool_decide_eq_true. split; [by exists o|]. by intros (? & [= <-] & ?).
  - split; [done|]. by intros (? & [=] & _).
Qed.

End HandlerFacts.

Section StringFacts.

Lemma str_take_length (n : nat) (s : string) :
  String.length (str_take n s) = Nat.min n (String.length s).
Proof.
  revert s. induction n as [|n IH]; intros [|c r]; simpl; try done.
  by rewrite IH.
Qed.

Lemma str_take_all (n : nat) (s : string) :
  (String.length s ≤ n)%nat → str_take n s = s.
Proof.
  revert s. induction n as [|n IH]; intros [|c r]; simpl; try done; try lia.
  intros ?. rewrite IH; [done|lia].
Qed.

Lemma str_take_prefix (n : nat) (s : string) : ∃ rest, s = str_take n s +:+ rest.
Proof.
  revert s. induction n as [|n IH]; intros s.
  - exists s. by destruct s.
  - destruct s as [|c r]; [by exists ""|]. destruct (IH r) as [rest Hr].
    exists rest. change (String c r = String c (str_take n r +:+ rest)).
    by f_equal.
Qed.

End StringFacts.

Section EntryFacts.
Context `{Numbers}.

(** The entry the merge built is in the store it returns. *)
Lemma merge_store_writes_entry key_of (now : string)
    (store h name product store' : value) :
  merge_store key_of now store h name product = Ok store' →
  ∃ entry es evt ws,
    build_entry now product = Ok entry ∧
    get store' "events" = Ok (VArr es) ∧ evt ∈ es ∧
    get evt "wines" = Ok (VArr ws) ∧ entry ∈ ws.
Proof.
  unfold merge_store. intros (events & Hev & Hm)%result_bind_Ok.
  apply result_bind_Ok in Hm as (es & Hes & Hm).
  apply result_bind_Ok in Hm as ([pos es1] & Hfc & Hm).
  apply result_bind_Ok in Hm as (evt' & Hup & [= <-]).
  destruct events; try discriminate. injection Hes as ->.
  destruct (get_Ok_array_object _ _ _ Hev) as (skvs & -> & _).
  apply upsert_wine_Ok in Hup as (kvs & ws & idx & entry & Hevt & Hw & Hidx & Hentry & ->).
  assert (pos < length es1) as Hpos.
  { apply lookup_lt_is_Some. destruct (es1 !! pos); [by eexists|discriminate]. }
  eexists entry, _, _, _. split; [done|]. split; [apply get_set_prop_eq|].
  split; [|split].
  - eapply list_elem_of_lookup_2. by apply list_lookup_insert_eq.
  - rewrite Hevt. apply get_set_prop_eq.
  - destruct idx as [j|].
    + eapply list_elem_of_lookup_2. apply list_lookup_insert_eq.
      by eapply findIndex_Some_lt.
    + apply elem_of_app. right. by apply list_elem_of_singleton.
Qed.

End EntryFacts.


(** * The claims about the merge *)

Section MergeClaims.
Context `{Numbers}.

(** C4.  When no event of the store has the submission's handle as its
    [collection_handle], the merge, in both handlers, appends one event and
    changes nothing else: the events are the former events followed by one
    object with [id] the handle, [name] the supplied name when there is one
    (a truthy value) and the handle otherwise, [date] the first ten
    characters of the current instant's ISO text, [collection_handle] the
    handle, and [wines] holding the new entry alone. *)
Theorem merge_appends_new_event (now : string)
    (store event_handle event_name product entry : value) (es : list value) :
  get store "events" = Ok (VArr es) →
  Forall (λ e, event_matches event_handle e = Ok false) es →
  build_entry now product = Ok entry →
  let evt := VObj [("id", event_handle);
                   ("name", if truthy event_name then event_name else event_handle);
                   ("date", VStr (str_take 10 now));
                   ("collection_handle", event_handle);
                   ("wines", VArr [entry])] in
  let store' := set_prop "events" (VArr (es ++ [evt])) store in
  merge_proxy now store event_handle event_name product = Ok store' ∧
  merge_direct now store event_handle event_name product = Ok store' ∧
  get store' "events" = Ok (VArr (es ++ [evt])) ∧
  ∀ k, k ≠ "events" → opt_get store' k = opt_get store k.
Proof.
  intros Hev Hall Hentry evt store'. unfold merge_proxy, merge_direct.
  rewrite !(merge_store_absent _ _ _ _ _ _ _ _ Hev Hall Hentry).
  split; [done|]. split; [done|].
  destruct (get_Ok_array_object _ _ _ Hev) as (skvs & -> & _).
  split; [apply get_set_prop_eq|].
  intros k Hk. by apply opt_get_set_prop_ne.
Qed.

(** C5.  The entry the merge writes, in both handlers: [product_id] is the
    Number of the submitted id; [handle] and [title] are the submitted
    strings, or the empty string when absent; [rating] is the submitted
    rating when it is a Number and [null] otherwise; [note] is the submitted
    note cut to its first 2000 characters (unchanged when it has no more
    than 2000, exactly 2000 long when it has more), or the empty string when
    absent. *)
Theorem entry_fields (now : string) (product : value) :
  truthy (opt_get product "product_id") = true →
  (opt_get product "note" = VUndefined ∨ ∃ s, opt_get product "note" = VStr s) →
  ∃ entry,
    build_entry now product = Ok entry ∧
    (∀ store h name store',
        merge_proxy now store h name product = Ok store' ∨
        merge_direct now store h name product = Ok store' →
        ∃ es evt ws, get store' "events" = Ok (VArr es) ∧ evt ∈ es ∧
                     get evt "wines" = Ok (VArr ws) ∧ entry ∈ ws) ∧
    opt_get entry "product_id" = VNum (ToNumber (opt_get product "product_id")) ∧
    (∀ s, opt_get product "handle" = VStr s → opt_get entry "handle" = VStr s) ∧
    (opt_get product "handle" = VUndefined → opt_get entry "handle" = VStr "") ∧
    (∀ s, opt_get product "title" = VStr s → opt_get entry "title" = VStr s) ∧
    (opt_get product "title" = VUndefined → opt_get entry "title" = VStr "") ∧
    (∀ n, opt_get product "rating" = VNum n → opt_get entry "rating" = VNum n) ∧
    ((∀ n, opt_get product "rating" ≠ VNum n) → opt_get entry "rating" = VNull) ∧
    (opt_get product "note" = VUndefined → opt_get entry "note" = VStr "") ∧
    (∀ s, opt_get product "note" = VStr s →
       ∃ t, opt_get entry "note" = VStr t ∧
            (∃ rest, s = t +:+ rest) ∧
            (String.length t ≤ 2000)%nat ∧
            ((String.length s ≤ 2000)%nat → t = s) ∧
            ((2000 < String.length s)%nat → String.length t = 2000)).
Proof.
  intros Hpid Hnote.
  assert (∃ kvs, product = VObj kvs) as [kvs ->].
  { destruct product; try discriminate. by eexists. }
  assert (∃ note', slice0 2000 (js_or (opt_get (VObj kvs) "note") (VStr ""))
                   = Ok note') as [note' Hs].
  { destruct Hnote as [->|[s ->]]; [by eexists|].
    unfold js_or. destruct (truthy (VStr s)); by eexists. }
  destruct (build_entry_total now (VObj kvs) note') as [entry Hentry]; try done.
  exists entry. split; [done|]. split.
  { intros store h name store' [Hm|Hm];
      apply merge_store_writes_entry in Hm as (entry' & es & evt & ws & He & ?);
      assert (entry' = entry) as -> by congruence; by exists es, evt, ws. }
  destruct (build_entry_Ok _ _ _ Hentry) as (note'' & Hs' & _ & _ & ->).
  assert (note'' = note') as -> by congruence. clear Hs' Hentry.
  set (vpid := opt_get (VObj kvs) "product_id") in *.
  set (vhandle := opt_get (VObj kvs) "handle") in *.
  set (vtitle := opt_get (VObj kvs) "title") in *.
  set (vrating := opt_get (VObj kvs) "rating") in *.
  set (vnote := opt_get (VObj kvs) "note") in *.
  clearbody vpid vhandle vtitle vrating vnote. simpl.
  split; [done|].
  split. { intros s ->. by destruct s. }
  split. { by intros ->. }
  split. { intros s ->. by destruct s. }
  split. { by intros ->. }
  split. { by intros n ->. }
  split.
  { intros Hr. destruct vrating as [| | |m| | |]; try done.
    by destruct (Hr m). }
  split. { intros Hn. rewrite Hn in Hs. by injection Hs as <-. }
  intros s Hn. rewrite Hn in Hs. exists (str_take 2000 s).
  assert (note' = VStr (str_take 2000 s)) as ->.
  { unfold js_or in Hs. simpl in Hs. destruct s as [|c r]; simpl in Hs.
    - by injection Hs as <-.
    - by injection Hs as <-. }
  split; [done|]. split; [apply str_take_prefix|].
  rewrite str_take_length. split; [lia|]. split; [apply str_take_all|lia].
Qed.

(** C10.  When [find] returns an event of the store for the submission's
    handle, the merge, in both handlers, changes that event in its [wines]
    only: its [id], [name], [date] and [collection_handle] are as before,
    whatever [event_name] was supplied, and all other events are untouched.
    It returns when the event's wines are an array of objects and the entry
    can be built. *)
Theorem merge_existing_event_frame (now : string)
    (store event_handle event_name product : value) (es : list value) (i : nat) :
  truthy event_handle = true →
  get store "events" = Ok (VArr es) →
  findIndex (event_matches event_handle) es = Ok (Some i) →
  ∀ merge, merge = merge_proxy ∨ merge = merge_direct →
    (∀ store',
        merge now store event_handle event_name product = Ok store' →
        ∃ evt evt',
          es !! i = Some evt ∧
          get store' "events" = Ok (VArr (<[i:=evt']> es)) ∧
          (∀ k, k ≠ "wines" → opt_get evt' k = opt_get evt k) ∧
          (∀ k, k ≠ "events" → opt_get store' k = opt_get store k)) ∧
    (∀ kvs ws entry,
        es !! i = Some (VObj kvs) →
        assoc "wines" kvs = Some (VArr ws) →
        Forall (λ w, w ≠ VUndefined ∧ w ≠ VNull) ws →
        build_entry now product = Ok entry →
        ∃ store', merge now store event_handle event_name product = Ok store').
Proof.
  intros Hh Hev Hf merge Hmerge.
  assert (∃ key_of, merge = merge_store key_of) as [key_of ->].
  { destruct Hmerge as [->| ->]; by eexists. }
  split.
  - intros store' Hm.
    destruct (merge_store_found _ _ _ _ _ _ _ _ _ Hh Hev Hf Hm)
      as (evt & evt' & Hevt & Hup & ->).
    exists evt, evt'. split; [done|].
    destruct (get_Ok_array_object _ _ _ Hev) as (skvs & -> & _).
    split; [apply get_set_prop_eq|]. split.
    + apply upsert_wine_Ok in Hup as (? & ? & ? & ? & _ & _ & _ & _ & ->).
      intros k Hk. by apply opt_get_set_prop_ne.
    + intros k Hk. by apply opt_get_set_prop_ne.
  - intros kvs ws entry. by apply merge_store_found_total.
Qed.

End MergeClaims.

(** The direct handler compares the stored ids with the Number it writes,
    so it keeps the identity invariants, and so does the App Proxy handler
    when the submitted id is a Number. *)
Section KeyedMerge.
Context `{NumbersLaws}.

(** X9.  The direct handler's merge keeps the identity invariants: from a
    store with at most one event per [collection_handle] and at most one
    entry per [product_id] in each event, it returns such a store, for every
    submission with a truthy event handle. *)
Lemma merge_direct_keeps_invariant (now : string)
    (store h name product store' : value) :
  truthy h = true →
  store_invariant store →
  merge_direct now store h name product = Ok store' →
  store_invariant store'.
Proof. intros Hh. by apply merge_store_invariant. Qed.

(** X10.  The App Proxy handler's merge keeps the identity invariants when
    the submitted [product_id] is a Number (it is then compared as it is
    written). *)
Lemma merge_proxy_keeps_invariant (now : string)
    (store h name product store' : value) (n : number) :
  truthy h = true →
  opt_get product "product_id" = VNum n →
  store_invariant store →
  merge_proxy now store h name product = Ok store' →
  store_invariant store'.
Proof. intros Hh Hn. apply merge_store_invariant; [done|]. by rewrite Hn. Qed.

(** X11.  In the direct handler an entry with the submitted product's
    Number is replaced where it stands, nothing else changes, and repeating
    the submission any number of times, the clock held, gives what one
    submission gives. *)
Lemma merge_direct_in_place (now : string)
    (store h name product evt entry : value) (es ws : list value) (i j n : nat) :
  truthy h = true →
  get store "events" = Ok (VArr es) →
  findIndex (event_matches h) es = Ok (Some i) →
  es !! i = Some evt →
  get evt "wines" = Ok (VArr ws) →
  findIndex (wine_matches (VNum (ToNumber (opt_get product "product_id")))) ws
    = Ok (Some j) →
  build_entry now product = Ok entry →
  merge_direct now store h name product =
    Ok (set_prop "events"
          (VArr (<[i:=set_prop "wines" (VArr (<[j:=entry]> ws)) evt]> es)) store) ∧
  merge_times merge_direct (S n) now store h name product =
    merge_direct now store h name product.
Proof.
  intros Hh Hev Hf Hevt Hws Hidx Hentry. split.
  - by eapply merge_store_in_place.
  - by eapply (merge_store_idempotent (λ pid, VNum (ToNumber pid))).
Qed.

End KeyedMerge.

Section MergeWitnesses.
Import Samples.

Lemma int_numbers_laws : @NumbersLaws int_numbers.
Proof.
  split.
  - intros [|x] [|y]; simpl; try reflexivity. apply Z.eqb_sym.
  - intros [|x] [|y] [|z]; simpl; try discriminate.
    intros ?%Z.eqb_eq ?%Z.eqb_eq. apply Z.eqb_eq. congruence.
Qed.

Lemma merge_appends_new_event_witness :
  let store := store_of [autumn_event] in
  get store "events" = Ok (VArr [autumn_event]) ∧
  Forall (λ e, event_matches spring e = Ok false) [autumn_event] ∧
  build_entry now1 product_101 = Ok (entry_101 now1) ∧
  merge_proxy now1 store spring VUndefined product_101
    = Ok (store_of [autumn_event; spring_event [entry_101 now1]]) ∧
  merge_direct now1 store spring VUndefined product_101
    = Ok (store_of [autumn_event; spring_event [entry_101 now1]]).
Proof.
  assert (Forall (λ e, event_matches spring e = Ok false) [autumn_event]) as Hall.
  { constructor; [reflexivity|constructor]. }
  destruct (merge_appends_new_event now1 (store_of [autumn_event]) spring
              VUndefined product_101 (entry_101 now1) [autumn_event]
              eq_refl Hall eq_refl) as (Hp & Hd & _).
  split; [reflexivity|]. split; [exact Hall|]. split; [reflexivity|].
  split; [exact Hp|exact Hd].
Defined.

Lemma entry_fields_witness :
  truthy (opt_get product_long "product_id") = true ∧
  (∃ s, opt_get product_long "note" = VStr s) ∧
  ∃ entry t,
    build_entry now1 product_long = Ok entry ∧
    opt_get entry "handle" = VStr "blanc" ∧
    opt_get entry "title" = VStr "" ∧
    opt_get entry "rating" = VNum (IInt 5) ∧
    opt_get entry "note" = VStr t ∧ String.length t = 2000.
Proof.
  split; [reflexivity|]. split; [by eexists|].
  destruct (entry_fields now1 product_long eq_refl
              (or_intror (ex_intro _ _ eq_refl)))
    as (entry & Hentry & _ & _ & Hh & _ & _ & Ht & Hr & _ & _ & Hn).
  destruct (Hn _ eq_refl) as (t & Hnote & _ & _ & _ & Hlen).
  exists entry, t. split; [exact Hentry|].
  split; [exact (Hh _ eq_refl)|]. split; [exact (Ht eq_refl)|].
  split; [exact (Hr _ eq_refl)|]. split; [exact Hnote|].
  apply Hlen. vm_compute. lia.
Defined.

Lemma merge_existing_event_frame_witness :
  let store := store_of [autumn_event; spring_event [entry_101 now1]] in
  truthy spring = true ∧
  get store "events" = Ok (VArr [autumn_event; spring_event [entry_101 now1]]) ∧
  findIndex (event_matches spring) [autumn_event; spring_event [entry_101 now1]]
    = Ok (Some 1) ∧
  ∃ store' evt',
    merge_direct now2 store spring (VStr "Renamed") product_101 = Ok store' ∧
    get store' "events" = Ok (VArr [autumn_event; evt']) ∧
    opt_get evt' "name" = spring ∧
    opt_get evt' "date" = VStr "2024-03-05".
Proof.
  split; [reflexivity|]. split; [reflexivity|]. split; [reflexivity|].
  destruct (merge_existing_event_frame now2
              (store_of [autumn_event; spring_event [entry_101 now1]])
              spring (VStr "Renamed") product_101
              [autumn_event; spring_event [entry_101 now1]] 1
              eq_refl eq_refl eq_refl merge_direct (or_intror eq_refl))
    as [Hframe Htotal].
  destruct (Htotal _ [entry_101 now1] (entry_101 now2) eq_refl eq_refl)
    as [store' Hm].
  { constructor; [split; discriminate|constructor]. }
  { reflexivity. }
  destruct (Hframe store' Hm) as (evt & evt' & [= <-] & Hev' & Hk & _).
  exists store', evt'. split; [exact Hm|]. split; [exact Hev'|].
  split; [by rewrite Hk|by rewrite Hk].
Defined.

End MergeWitnesses.

(** * Where the App Proxy handler loses the key *)

Section ProxyKey.
Import Samples.

(** C1 (the code at a failing input).  The App Proxy handler compares the
    stored ids with the submitted id as it came, and writes its Number.  A
    product id sent as the string [101]: the first submission, on the empty
    store, gives a store that satisfies the invariants and that is read back
    as it was written; the second submission gives that store a second
    entry with [product_id] 101, which breaks the invariant. *)
Theorem proxy_merge_duplicates_product :
  merge_proxy now1 empty_store spring VUndefined product_101 = Ok store_once ∧
  store_invariant store_once ∧
  JSON_parse (JSON_stringify store_once) = Some store_once ∧
  merge_proxy now2 store_once spring VUndefined product_101
    = Ok (store_of [spring_event [entry_101 now1; entry_101 now2]]) ∧
  ¬ store_invariant (store_of [spring_event [entry_101 now1; entry_101 now2]]).
Proof.
  split; [reflexivity|]. split.
  { exists [spring_event [entry_101 now1]]. split; [reflexivity|]. split.
    - intros i j x y Hx Hy _.
      apply list_lookup_singleton_Some in Hx as [-> _].
      by apply list_lookup_singleton_Some in Hy as [-> _].
    - constructor; [|constructor]. exists [entry_101 now1].
      split; [reflexivity|]. intros i j x y Hx Hy _.
      apply list_lookup_singleton_Some in Hx as [-> _].
      by apply list_lookup_singleton_Some in Hy as [-> _]. }
  split; [reflexivity|]. split; [reflexivity|].
  intros (es & [= <-] & _ & Hall).
  apply Forall_cons in Hall as [(ws & [= <-] & Hw) _].
  by specialize (Hw 0 1 (entry_101 now1) (entry_101 now2) eq_refl eq_refl eq_refl).
Qed.

(** C2 (the code at a failing input).  In the App Proxy handler the store
    [store_once] has an entry for product 101 of the event; the submission
    of that product, its id sent as a string, is appended after it instead
    of replacing it, and a repetition appends once more, so that two
    submissions do not give what one gives.  The direct handler replaces the
    entry in place on the same input, and repeating changes nothing. *)
Theorem proxy_merge_appends_instead_of_replacing :
  get (spring_event [entry_101 now1]) "wines" = Ok (VArr [entry_101 now1]) ∧
  opt_get (entry_101 now1) "product_id"
    = VNum (ToNumber (opt_get product_101 "product_id")) ∧
  merge_times merge_proxy 1 now2 store_once spring VUndefined product_101
    = Ok (store_of [spring_event [entry_101 now1; entry_101 now2]]) ∧
  merge_times merge_proxy 2 now2 store_once spring VUndefined product_101
    = Ok (store_of [spring_event [entry_101 now1; entry_101 now2; entry_101 now2]]) ∧
  merge_times merge_direct 1 now2 store_once spring VUndefined product_101
    = Ok (store_of [spring_event [entry_101 now2]]) ∧
  merge_times merge_direct 2 now2 store_once spring VUndefined product_101
    = Ok (store_of [spring_event [entry_101 now2]]).
Proof. repeat split; reflexivity. Qed.

End ProxyKey.

(** * The claims about the handlers *)

Section HandlerClaims.
Context `{Builtins} `{Env}.

(** C9.  A direct request whose [Origin] is not in the allow-list (or is
    missing) is answered 401 [Origin not allowed], and the handler has asked
    the world nothing: no remote call, hence neither the e-mail query, nor
    the read, nor the write. *)
Theorem direct_origin_rejected (request : request) :
  (∀ o, lookup_first "origin" (req_headers request) = Some o → o ∉ ALLOWED_ORIGINS) →
  runs (POST_direct request) [] (Ok (bad "Origin not allowed" 401)) ∧
  status (bad "Origin not allowed" 401) = 401 ∧
  ∀ tr o, runs (POST_direct request) tr o →
          tr = [] ∧ o = Ok (bad "Origin not allowed" 401).
Proof.
  intros Hnot.
  assert (POST_direct request = Ret (bad "Origin not allowed" 401)) as ->.
  { unfold POST_direct.
    destruct (origin_allowed _) eqn:Ho; [|done].
    apply origin_allowed_spec in Ho as (o & Ho & Hin). by destruct (Hnot o Ho). }
  split; [constructor|]. split; [done|]. intros tr o. apply runs_Ret_inv.
Qed.

(** C8.  A direct request that passed the origin and field checks first
    queries the customer's e-mail.  When that query succeeds, with no e-mail
    on file or with a string, the handler answers 401 [Customer verification
    failed] at once exactly when there is no e-mail on file or the e-mail,
    in lower case, differs from the supplied one in lower case; otherwise it
    goes on to read the metafield. *)
Theorem direct_email_check (request : request) (body : value) :
  let fields := js_or body (VObj []) in
  let customer_id := opt_get fields "customer_id" in
  let customer_email := opt_get fields "customer_email" in
  let gid := "gid://shopify/Customer/" +:+ ToString customer_id in
  origin_allowed (lookup_first "origin" (req_headers request)) = true →
  JSON_parse (req_text request) = Some body →
  truthy (opt_get fields "shop") = true →
  truthy customer_id = true →
  truthy customer_email = true →
  truthy (opt_get fields "event_handle") = true →
  truthy (opt_get (opt_get fields "product") "product_id") = true →
  ∀ tr o, runs (POST_direct request) tr o →
    ∃ r tr',
      tr = EFetch CustomerEmailQuery (read_variables gid) r :: tr' ∧
      ∀ d1, graphql_result r = Ok d1 →
        let realEmail := opt_get (opt_get d1 "customer") "email" in
        (truthy realEmail = false ∨ ∃ e, realEmail = VStr e) →
        ((tr' = [] ∧ o = Ok (bad "Customer verification failed" 401)) ↔
         (truthy realEmail = false ∨
          ∃ e, realEmail = VStr e ∧
               toLowerCase e ≠ toLowerCase (ToString customer_email))) ∧
        ((∃ e, realEmail = VStr e ∧ e ≠ "" ∧
               toLowerCase e = toLowerCase (ToString customer_email)) →
         ∃ r2 tr'', tr' = EFetch MetafieldQuery (read_variables gid) r2 :: tr'').
Proof.
  intros fields customer_id customer_email gid Ho Hbody Hshop Hid Hemail Hh Hp tr o.
  unfold POST_direct. rewrite Ho, Hbody. simpl.
  fold fields. fold customer_id. fold customer_email.
  rewrite Hshop, Hid, Hemail, Hh, Hp. simpl.
  fold gid. unfold shopifyGraphQL. simpl.
  intros (r & tr' & -> & Hr)%runs_Fetch_inv. exists r, tr'. split; [done|].
  intros d1 Hd1 Hon. rewrite Hd1 in Hr. simpl in Hr.
  set (realEmail := opt_get (opt_get d1 "customer") "email") in *.
  unfold email_mismatch in Hr.
  destruct Hon as [Hno|[e He]].
  - rewrite Hno in Hr. simpl in Hr. apply runs_Ret_inv in Hr as [-> ->]. split.
    + split; [by left|done].
    + intros (e & He & Hne & _). exfalso. rewrite He in Hno. apply Hne.
      by destruct e.
  - rewrite He in Hr |- *. destruct e as [|c e0].
    { simpl in Hr. apply runs_Ret_inv in Hr as [-> ->]. split.
      - split; [by left|done].
      - by intros (e' & [= <-] & Hne & _). }
    simpl in Hr.
    destruct (String.eqb (toLowerCase (String c e0))
                         (toLowerCase (ToString customer_email))) eqn:Heq;
      simpl in Hr.
    + apply String.eqb_eq in Heq.
      assert (∃ r2 tr'', tr' = EFetch MetafieldQuery (read_variables gid) r2 :: tr'')
        as (r2 & tr'' & ->).
      { apply runs_read_merge_write in Hr
          as [(r2 & ? & -> & _)|[(r2 & ? & ? & ? & -> & _)|
              (r2 & ? & ? & ? & ? & -> & _)]]; by eexists _, _. }
      split; [|by intros _; eexists _, _]. split.
      * by intros [[=] _].
      * intros [[=]|(e' & [= <-] & Hne)]. by destruct Hne.
    + apply String.eqb_neq in Heq. apply runs_Ret_inv in Hr as [-> ->]. split.
      * split; [|done]. intros _. right. by eexists.
      * by intros (e' & [= <-] & _ & ?).
Qed.

(** C6.  When the stored value is absent (no customer, no metafield, a
    falsy value) or is a text [JSON.parse] rejects, the merge starts from
    [{events: []}] and the request goes on, in both handlers: the write is
    issued with the one-event store made from the submission, and the
    outcome is what the reply to the write makes it, as for any other stored
    document. *)
Theorem unreadable_document_is_empty_store
    gid (event_handle event_name product entry data : value)
    (r1 r2 : fetch_reply) (now : string) :
  let v := opt_get (opt_get (opt_get data "customer") "metafield") "value" in
  let written :=
    VObj [("events",
           VArr [VObj [("id", event_handle);
                       ("name", if truthy event_name then event_name else event_handle);
                       ("date", VStr (str_take 10 now));
                       ("collection_handle", event_handle);
                       ("wines", VArr [entry])]])] in
  graphql_result r1 = Ok data →
  truthy v = false ∨ JSON_parse (ToString v) = None →
  build_entry now product = Ok entry →
  load_store data = empty_store ∧
  ∀ merge fail,
    merge = merge_proxy ∧ fail = proxy_error ∨ merge = merge_direct ∧ fail = bad →
    merge now (load_store data) event_handle event_name product = Ok written ∧
    runs (read_merge_write merge fail gid event_handle event_name product)
      [EFetch MetafieldQuery (read_variables gid) r1; ENow now;
       EFetch MetafieldsSetMutation (write_variables gid written) r2]
      (data2 <- graphql_result r2 ;; respond fail data2).
Proof.
  intros v written Hr1 Hv Hentry.
  assert (load_store data = empty_store) as Hload.
  { unfold load_store. fold v. destruct Hv as [-> | ->]; [done|].
    by destruct (truthy v). }
  split; [done|]. intros merge fail Hmerge.
  assert (merge now (load_store data) event_handle event_name product = Ok written)
    as Hm.
  { rewrite Hload.
    destruct (merge_appends_new_event now empty_store event_handle event_name
                product entry [] eq_refl (List.Forall_nil _) Hentry) as (Hp & Hd & _).
    by destruct Hmerge as [[-> _]|[-> _]]. }
  split; [done|]. apply runs_read_merge_write. right; right.
  by exists r1, data, now, written, r2.
Qed.

End HandlerClaims.

Section OutcomeFacts.
Context `{Builtins} `{Env}.

Lemma read_merge_write_outcomes merge fail gid (h name product : value) tr o :
  runs (read_merge_write merge fail gid h name product) tr o →
  (∀ resp, o = Ok resp → resp = ok_response ∨ ∃ msg, resp = fail msg 500) ∧
  (∀ q v r, EFetch q v r ∈ tr → (∃ e, graphql_result r = Thrown e) →
            ∃ e, o = Thrown e).
Proof.
  intros [(r1 & e & -> & Hg & ->)|[(r1 & data & now & e & -> & Hg & Hm & ->)|
          (r1 & data & now & store' & r2 & -> & Hg & Hm & ->)]]%runs_read_merge_write.
  - split; [done|]. by eexists.
  - split; [done|]. by eexists.
  - split.
    + intros resp (data2 & _ & Hresp)%result_bind_Ok. by eapply respond_Ok.
    + intros q v r Hin [e He].
      apply elem_of_cons in Hin as [[= -> -> ->]|Hin]; [congruence|].
      apply elem_of_cons in Hin as [[=]|Hin].
      apply list_elem_of_singleton in Hin as [= -> -> ->].
      rewrite He. simpl. by eexists.
Qed.

End OutcomeFacts.

Section OutcomeClaims.
Context `{Builtins} `{Env}.

(** C3, as the code has it.  Whatever the request and whatever the world
    answers: a response returned by either handler is the success response
    or carries [{ok: false, error: <message>}] with status 400, 401 or 500;
    and when a remote call was answered with a non-success status or with
    reported errors, the handler returns no response at all: the exception
    thrown by [shopifyGraphQL] leaves it uncaught. *)
Theorem handler_outcomes (request : request) tr o :
  runs (POST_proxy request) tr o ∨ runs (POST_direct request) tr o →
  (∀ resp, o = Ok resp →
     resp = ok_response ∨
     ∃ msg, body resp = error_body msg ∧
            (status resp = 400 ∨ status resp = 401 ∨ status resp = 500)) ∧
  (∀ q v ok text,
     EFetch q v (Response ok text) ∈ tr →
     ok = false ∨
     (∃ json, JSON_parse text = Some json ∧ truthy (opt_get json "errors") = true) →
     ∃ e, o = Thrown e).
Proof.
  assert (∀ fail merge gid h name product tr o,
            (∀ msg, body (fail msg 500) = error_body msg ∧ status (fail msg 500) = 500) →
            runs (read_merge_write merge fail gid h name product) tr o →
            (∀ resp, o = Ok resp →
               resp = ok_response ∨
               ∃ msg, body resp = error_body msg ∧
                      (status resp = 400 ∨ status resp = 401 ∨ status resp = 500)) ∧
            (∀ q v ok text,
               EFetch q v (Response ok text) ∈ tr →
               ok = false ∨
               (∃ json, JSON_parse text = Some json
                        ∧ truthy (opt_get json "errors") = true) →
               ∃ e, o = Thrown e)) as Hrmw.
  { intros fail merge gid h name product tr' o' Hfail
      [Hresp Hthrown]%read_merge_write_outcomes. split.
    - intros resp [->|[msg ->]]%Hresp; [by left|]. right. exists msg.
      destruct (Hfail msg) as [-> ->]. auto.
    - intros q v ok text Hin Hbad. eapply Hthrown; [exact Hin|].
      by apply graphql_result_failure. }
  assert (∀ (resp : response) msg,
            body resp = error_body msg →
            status resp = 400 ∨ status resp = 401 →
            (∀ resp', Ok resp = Ok resp' →
               resp' = ok_response ∨
               ∃ msg, body resp' = error_body msg ∧
                      (status resp' = 400 ∨ status resp' = 401 ∨ status resp' = 500)) ∧
            (∀ q v ok text,
               EFetch q v (Response ok text) ∈ [] →
               ok = false ∨
               (∃ json, JSON_parse text = Some json
                        ∧ truthy (opt_get json "errors") = true) →
               ∃ e, Ok resp = Thrown e)) as Hret.
  { intros resp msg Hb Hs. split.
    - intros resp' [= <-]. right. exists msg. split; [done|]. tauto.
    - by intros q v ok text Hin%elem_of_nil. }
  intros [Hr|Hr].
  - unfold POST_proxy in Hr.
    destruct (negb (verifyProxySignature _ _)).
    { apply runs_Ret_inv in Hr as [-> ->]. eapply Hret; [done|]. by right. }
    destruct (String.eqb _ _).
    { apply runs_Ret_inv in Hr as [-> ->]. eapply Hret; [done|]. by right. }
    destruct (_ || _).
    { apply runs_Ret_inv in Hr as [-> ->]. eapply Hret; [done|]. by left. }
    eapply Hrmw; [|exact Hr]. done.
  - unfold POST_direct in Hr.
    destruct (negb (origin_allowed _)).
    { apply runs_Ret_inv in Hr as [-> ->]. eapply Hret; [done|]. by right. }
    destruct (JSON_parse (req_text request)) as [bdy|]; cycle 1.
    { apply runs_Ret_inv in Hr as [-> ->]. eapply Hret; [done|]. by left. }
    destruct (_ || _).
    { apply runs_Ret_inv in Hr as [-> ->]. eapply Hret; [done|]. by left. }
    unfold shopifyGraphQL in Hr. simpl in Hr.
    apply runs_Fetch_inv in Hr as (r & tr' & -> & Hr).
    destruct (graphql_result r) as [d1|e] eqn:Hg; simpl in Hr; cycle 1.
    { apply runs_Throw_inv in Hr as [-> ->]. split; [done|]. by eexists. }
    assert (∀ ok text,
              r = Response ok text →
              ok = false ∨
              (∃ json, JSON_parse text = Some json
                       ∧ truthy (opt_get json "errors") = true) → False) as Hfine.
    { intros ok text -> [e He]%graphql_result_failure. congruence. }
    destruct (email_mismatch _ _) as [[|]|e]; simpl in Hr.
    + apply runs_Ret_inv in Hr as [-> ->]. split.
      * intros resp [= <-]. right. eexists. split; [done|]. tauto.
      * intros q v ok text Hin%list_elem_of_singleton Hbad.
        injection Hin as _ _ Hrep. by destruct (Hfine _ _ (eq_sym Hrep) Hbad).
    + destruct (Hrmw bad _ _ _ _ _ _ _ (λ msg, conj eq_refl eq_refl) Hr)
        as [Hresp Hthrown].
      split; [done|]. intros q v ok text Hin Hbad.
      apply elem_of_cons in Hin as [Hhead|Hin].
      * injection Hhead as _ _ Hrep. by destruct (Hfine _ _ (eq_sym Hrep) Hbad).
      * by eapply Hthrown.
    + apply runs_Throw_inv in Hr as [-> ->]. split; [done|]. by eexists.
Qed.

End OutcomeClaims.

Section SignatureClaims.
Context `{BuiltinsLaws} `{Env}.

(** C7.  The signature check of the App Proxy handler passes exactly when
    the [x-shopify-proxy-signature] header is the base64 HMAC-SHA256 digest
    of the raw body under the app secret, and a request that fails it is
    answered 401 [Bad signature].  So the digest of a body passes for that
    body, and it fails for another body, one byte apart or not, unless the
    two bodies have the same digest. *)
Theorem proxy_signature_check :
  (∀ hdrs raw,
     verifyProxySignature hdrs raw = true ↔
     lookup_first "x-shopify-proxy-signature" hdrs
       = Some (hmac_sha256_base64 APP_SECRET raw)) ∧
  (∀ request,
     verifyProxySignature (req_headers request) (req_text request) = false →
     POST_proxy request = Ret (proxy_error "Bad signature" 401)) ∧
  (∀ B,
     verifyProxySignature
       [("x-shopify-proxy-signature", hmac_sha256_base64 APP_SECRET B)] B = true) ∧
  (∀ B B',
     hmac_sha256_base64 APP_SECRET B' ≠ hmac_sha256_base64 APP_SECRET B →
     verifyProxySignature
       [("x-shopify-proxy-signature", hmac_sha256_base64 APP_SECRET B)] B' = false).
Proof.
  assert (∀ hdrs raw,
            verifyProxySignature hdrs raw = true ↔
            lookup_first "x-shopify-proxy-signature" hdrs
              = Some (hmac_sha256_base64 APP_SECRET raw)) as Hspec.
  { intros hdrs raw. rewrite verifyProxySignature_spec.
    destruct (lookup_first _ hdrs) as [sig|]; simpl.
    - split; congruence.
    - split; [|done]. intros Hempty.
      pose proof (digest_length APP_SECRET raw) as Hlen.
      by rewrite <- Hempty in Hlen. }
  split; [done|]. split; [|split].
  - intros request Hv. unfold POST_proxy. by rewrite Hv.
  - intros B. by apply Hspec.
  - intros B B' Hne. apply not_true_is_false. intros Hv%Hspec.
    simpl in Hv. congruence.
Qed.

End SignatureClaims.

Section HandlerWitnesses.
Import Samples.

Lemma int_builtins_laws : @BuiltinsLaws int_numbers int_builtins.
Proof.
  split. intros key message. simpl. unfold Sha256.hmac_sha256_base64.
  by destruct (Sha256.hmac_state _ _) as [[[[[[[a b] c] d] e] f] g] h].
Qed.

(** The App Proxy request of the samples passes the checks. *)
Lemma POST_proxy_sample :
  POST_proxy proxy_request =
  read_merge_write merge_proxy proxy_error customer_gid spring VUndefined product_101.
Proof.
  unfold POST_proxy.
  assert (verifyProxySignature (req_headers proxy_request) (req_text proxy_request)
          = true) as -> by (vm_compute; reflexivity).
  reflexivity.
Qed.

Lemma direct_origin_rejected_witness :
  (∀ o, lookup_first "origin" (req_headers (direct_request "https://evil.example"))
          = Some o → o ∉ ALLOWED_ORIGINS) ∧
  ∀ tr o, runs (POST_direct (direct_request "https://evil.example")) tr o →
          tr = [] ∧ o = Ok (bad "Origin not allowed" 401).
Proof.
  assert (∀ o, lookup_first "origin"
                 (req_headers (direct_request "https://evil.example")) = Some o →
               o ∉ ALLOWED_ORIGINS) as Hnot.
  { intros o [= <-] Hin.
    repeat (apply elem_of_cons in Hin as [Hin|Hin]; [discriminate Hin|]).
    by apply elem_of_nil in Hin. }
  split; [exact Hnot|].
  exact (proj2 (proj2 (direct_origin_rejected _ Hnot))).
Defined.

Lemma direct_email_check_witness :
  origin_allowed
    (lookup_first "origin" (req_headers (direct_request "https://famelia.com")))
    = true ∧
  JSON_parse (req_text (direct_request "https://famelia.com")) = Some direct_body ∧
  ∀ tr o, runs (POST_direct (direct_request "https://famelia.com")) tr o →
    ∃ r tr', tr = EFetch CustomerEmailQuery (read_variables customer_gid) r :: tr'.
Proof.
  split; [reflexivity|]. split; [reflexivity|]. intros tr o Hr.
  destruct (@direct_email_check int_numbers int_builtins example_env
              (direct_request "https://famelia.com") direct_body
              ltac:(reflexivity) ltac:(reflexivity) ltac:(reflexivity)
              ltac:(reflexivity) ltac:(reflexivity) ltac:(reflexivity)
              ltac:(reflexivity) tr o Hr)
    as (r & tr' & Htr & _).
  by exists r, tr'.
Defined.

Lemma unreadable_document_is_empty_store_witness :
  let brace := "{oops" in
  let data :=
    VObj [("customer",
           VObj [("metafield",
                  VObj [("id", VStr "gid://shopify/Metafield/1");
                        ("type", VStr "json"); ("value", VStr brace)])])] in
  graphql_result (metafield_reply brace) = Ok data ∧
  JSON_parse brace = None ∧
  build_entry now1 product_101 = Ok (entry_101 now1) ∧
  load_store data = empty_store ∧
  runs (read_merge_write merge_proxy proxy_error customer_gid
          spring VUndefined product_101)
    [EFetch MetafieldQuery (read_variables customer_gid) (metafield_reply brace);
     ENow now1;
     EFetch MetafieldsSetMutation (write_variables customer_gid store_once)
       write_acknowledged]
    (Ok ok_response).
Proof.
  intros brace data.
  assert (graphql_result (metafield_reply brace) = Ok data) as Hg by reflexivity.
  assert (JSON_parse brace = None) as Hp by reflexivity.
  assert (build_entry now1 product_101 = Ok (entry_101 now1)) as He by reflexivity.
  destruct (unreadable_document_is_empty_store customer_gid spring VUndefined
              product_101 (entry_101 now1) data (metafield_reply brace)
              write_acknowledged now1 Hg (or_intror Hp) He)
    as [Hload Hruns].
  destruct (Hruns merge_proxy proxy_error (or_introl (conj eq_refl eq_refl)))
    as [_ Hrun].
  split; [exact Hg|]. split; [exact Hp|]. split; [exact He|].
  split; [exact Hload|exact Hrun].
Defined.


Lemma proxy_signature_check_witness :
  differences proxy_body proxy_body' = Some 1 ∧
  verifyProxySignature (req_headers proxy_request) proxy_body = true ∧
  hmac_sha256_base64 APP_SECRET proxy_body' ≠ hmac_sha256_base64 APP_SECRET proxy_body ∧
  verifyProxySignature (req_headers proxy_request) proxy_body' = false.
Proof.
  destruct (@proxy_signature_check _ _ int_builtins_laws _)
    as (_ & _ & Hpass & Hfail).
  split; [by vm_compute|]. split; [apply Hpass|].
  assert (hmac_sha256_base64 APP_SECRET proxy_body'
          ≠ hmac_sha256_base64 APP_SECRET proxy_body) as Hne.
  { vm_compute. discriminate. }
  split; [exact Hne|]. apply Hfail. exact Hne.
Defined.

Lemma handler_outcomes_witness :
  runs (POST_proxy proxy_request)
    [EFetch MetafieldQuery (read_variables customer_gid) unauthorized]
    (Thrown (Error (JSON_stringify (VStr "Unauthorized")))) ∧
  ∃ e, Thrown (Error (JSON_stringify (VStr "Unauthorized"))) = @Thrown response e.
Proof.
  assert (runs (POST_proxy proxy_request)
            [EFetch MetafieldQuery (read_variables customer_gid) unauthorized]
            (Thrown (Error (JSON_stringify (VStr "Unauthorized"))))) as Hrun.
  { rewrite POST_proxy_sample. apply runs_read_merge_write. left.
    by eexists _, _. }
  split; [exact Hrun|].
  eapply (proj2 (handler_outcomes proxy_request _ _ (or_introl Hrun))).
  - by left.
  - by left.
Defined.

(** C3 (counterexample).  The remote service refuses the call (a
    non-success reply reporting errors): neither handler returns a response,
    500 or other; the error thrown by [shopifyGraphQL] is the outcome. *)
Lemma remote_failure_escapes_handler :
  (runs (POST_proxy proxy_request)
     [EFetch MetafieldQuery (read_variables customer_gid) unauthorized]
     (Thrown (Error (JSON_stringify (VStr "Unauthorized")))) ∧
   ¬ ∃ resp, runs (POST_proxy proxy_request)
               [EFetch MetafieldQuery (read_variables customer_gid) unauthorized]
               (Ok resp)) ∧
  (runs (POST_direct (direct_request "https://famelia.com"))
     [EFetch CustomerEmailQuery (read_variables customer_gid) unauthorized]
     (Thrown (Error (JSON_stringify (VStr "Unauthorized")))) ∧
   ¬ ∃ resp, runs (POST_direct (direct_request "https://famelia.com"))
               [EFetch CustomerEmailQuery (read_variables customer_gid) unauthorized]
               (Ok resp)).
Proof.
  assert (∀ (p : prog response) tr e,
            runs p tr (Thrown e) → runs p tr (Thrown e) ∧ ¬ ∃ resp, runs p tr (Ok resp))
    as Honly.
  { intros p tr e Hr. split; [done|]. intros [resp Hresp].
    by pose proof (runs_deterministic _ _ _ _ Hr Hresp). }
  split; apply Honly.
  - rewrite POST_proxy_sample. apply runs_read_merge_write. left. by eexists _, _.
  - apply (runs_Fetch CustomerEmailQuery). constructor.
Qed.

End HandlerWitnesses.

(** * Further properties of the handlers *)

Section Validation.
Context `{Builtins} `{Env}.

(** X1.  A correctly signed App Proxy request without a
    [logged_in_customer_id] (absent or empty) is answered 401 [Not logged
    in], whatever its body, and nothing is asked of the remote service. *)
Theorem proxy_not_logged_in (request : request) :
  verifyProxySignature (req_headers request) (req_text request) = true →
  default "" (lookup_first "logged_in_customer_id" (req_search request)) = "" →
  ∀ tr o, runs (POST_proxy request) tr o ↔
          tr = [] ∧ o = Ok (proxy_error "Not logged in" 401).
Proof.
  intros Hv Hl tr o. unfold POST_proxy. rewrite Hv, Hl. simpl. split.
  - apply runs_Ret_inv.
  - intros [-> ->]. constructor.
Qed.

(** X2.  A signed, logged-in App Proxy request whose body is not JSON, or
    lacks a truthy [event_handle] or a truthy [product.product_id], is
    answered 400 [Missing event or product] without any remote call: an
    unparsable body is treated as the empty object, not reported as such. *)
Theorem proxy_missing_event_or_product (request : request) :
  let fields := js_or (default (VObj []) (JSON_parse (req_text request))) (VObj []) in
  verifyProxySignature (req_headers request) (req_text request) = true →
  default "" (lookup_first "logged_in_customer_id" (req_search request)) ≠ "" →
  JSON_parse (req_text request) = None ∨
  truthy (opt_get fields "event_handle") = false ∨
  truthy (opt_get (opt_get fields "product") "product_id") = false →
  ∀ tr o, runs (POST_proxy request) tr o ↔
          tr = [] ∧ o = Ok (proxy_error "Missing event or product" 400).
Proof.
  intros fields Hv Hl Hmiss tr o. unfold POST_proxy. rewrite Hv. simpl.
  apply String.eqb_neq in Hl. rewrite Hl. fold fields.
  assert (negb (truthy (opt_get fields "event_handle"))
          || negb (truthy (opt_get (opt_get fields "product") "product_id"))
          = true) as ->.
  { destruct Hmiss as [Hnone|[-> | ->]]; [|done|by rewrite orb_true_r].
    subst fields. by rewrite Hnone. }
  split.
  - apply runs_Ret_inv.
  - intros [-> ->]. constructor.
Qed.

(** X3.  A direct request from an allowed origin whose body is not JSON is
    answered 400 [Invalid JSON]; one whose body lacks a truthy [shop],
    [customer_id], [customer_email], [event_handle] or [product.product_id]
    is answered 400 [Missing required fields].  Neither asks anything of the
    remote service. *)
Theorem direct_invalid_body (request : request) :
  origin_allowed (lookup_first "origin" (req_headers request)) = true →
  (JSON_parse (req_text request) = None →
   ∀ tr o, runs (POST_direct request) tr o ↔
           tr = [] ∧ o = Ok (bad "Invalid JSON" 400)) ∧
  (∀ body,
     JSON_parse (req_text request) = Some body →
     let fields := js_or body (VObj []) in
     truthy (opt_get fields "shop") = false ∨
     truthy (opt_get fields "customer_id") = false ∨
     truthy (opt_get fields "customer_email") = false ∨
     truthy (opt_get fields "event_handle") = false ∨
     truthy (opt_get (opt_get fields "product") "product_id") = false →
     ∀ tr o, runs (POST_direct request) tr o ↔
             tr = [] ∧ o = Ok (bad "Missing required fields" 400)).
Proof.
  intros Ho. split.
  - intros Hnone tr o. unfold POST_direct. rewrite Ho, Hnone. simpl. split.
    + apply runs_Ret_inv.
    + intros [-> ->]. constructor.
  - intros body Hbody fields Hmiss tr o. unfold POST_direct.
    rewrite Ho, Hbody. simpl. fold fields.
    assert (negb (truthy (opt_get fields "shop"))
            || negb (truthy (opt_get fields "customer_id"))
            || negb (truthy (opt_get fields "customer_email"))
            || negb (truthy (opt_get fields "event_handle"))
            || negb (truthy (opt_get (opt_get fields "product") "product_id"))
            = true) as ->.
    { destruct Hmiss as [-> |[-> |[-> |[-> | ->]]]]; simpl;
        by rewrite ?orb_true_r. }
    split.
    + apply runs_Ret_inv.
    + intros [-> ->]. constructor.
Qed.

End Validation.

Section Sequence.
Context `{Builtins} `{Env}.

Lemma read_merge_write_sequence merge fail gid (h name product : value) tr o :
  runs (read_merge_write merge fail gid h name product) tr o →
  queries tr `prefix_of` [MetafieldQuery; MetafieldsSetMutation] ∧
  queries tr ≠ [] ∧
  write_follows_read merge tr.
Proof.
  intros [(r1 & e & -> & Hg & ->)|[(r1 & data & now & e & -> & Hg & Hm & ->)|
          (r1 & data & now & store' & r2 & -> & Hg & Hm & ->)]]%runs_read_merge_write.
  - split; [by exists [MetafieldsSetMutation]|]. split; [done|].
    intros [|[|i]] v r; simpl; discriminate.
  - split; [by exists [MetafieldsSetMutation]|]. split; [done|].
    intros [|[|[|i]]] v r; simpl; discriminate.
  - split; [by exists []|]. split; [done|].
    intros [|[|[|[|i]]]] v r; simpl; try discriminate. intros [= <- <-].
    by exists [], gid, r1, data, now, h, name, product, store'.
Qed.

(** X4.  The order of the remote calls.  The App Proxy handler reads the
    metafield and then writes it; the direct handler queries the e-mail,
    reads, then writes; a run stops anywhere along that sequence and never
    calls twice or in another order. *)
Theorem remote_calls_in_order (request : request) :
  (∀ tr o, runs (POST_proxy request) tr o →
           queries tr `prefix_of` [MetafieldQuery; MetafieldsSetMutation]) ∧
  (∀ tr o, runs (POST_direct request) tr o →
           queries tr `prefix_of`
             [CustomerEmailQuery; MetafieldQuery; MetafieldsSetMutation]).
Proof.
  split; intros tr o Hr.
  - unfold POST_proxy in Hr.
    repeat match type of Hr with
           | runs (if ?c then _ else _) _ _ =>
               destruct c;
               [apply runs_Ret_inv in Hr as [-> ->]; by eexists|]
           end.
    by apply read_merge_write_sequence in Hr as [? _].
  - unfold POST_direct in Hr.
    destruct (negb (origin_allowed _));
      [apply runs_Ret_inv in Hr as [-> ->]; by eexists|].
    destruct (JSON_parse (req_text request)) as [bdy|];
      [|apply runs_Ret_inv in Hr as [-> ->]; by eexists].
    destruct (_ || _); [apply runs_Ret_inv in Hr as [-> ->]; by eexists|].
    unfold shopifyGraphQL in Hr. simpl in Hr.
    apply runs_Fetch_inv in Hr as (r & tr' & -> & Hr).
    destruct (graphql_result r) as [d1|e]; simpl in Hr;
      [|apply runs_Throw_inv in Hr as [-> ->]; by eexists].
    destruct (email_mismatch _ _) as [[|]|e]; simpl in Hr.
    + apply runs_Ret_inv in Hr as [-> ->]. by eexists.
    + apply read_merge_write_sequence in Hr as [[k Hk] _].
      exists k. simpl. by rewrite <- Hk.
    + apply runs_Throw_inv in Hr as [-> ->]. by eexists.
Qed.


(** X6.  A stored value that [JSON.parse] accepts is taken as the store
    whatever its shape.  When it has no [events] array (the text [null], a
    number, an object without [events], ...), the merge throws a TypeError
    in both handlers: the run ends after the read and the clock, nothing is
    written and no response is returned. *)
Theorem misshapen_document_throws
    gid (event_handle event_name product data stored : value)
    (r1 : fetch_reply) :
  let v := opt_get (opt_get (opt_get data "customer") "metafield") "value" in
  graphql_result r1 = Ok data →
  truthy v = true →
  JSON_parse (ToString v) = Some stored →
  (∀ es, get stored "events" ≠ Ok (VArr es)) →
  load_store data = stored ∧
  ∀ merge fail,
    merge = merge_proxy ∧ fail = proxy_error ∨ merge = merge_direct ∧ fail = bad →
    ∀ tr o,
      runs (read_merge_write merge fail gid event_handle event_name product)
        (EFetch MetafieldQuery (read_variables gid) r1 :: tr) o ↔
      ∃ now, tr = [ENow now] ∧ o = Thrown TypeError.
Proof.
  intros v Hg Hv Hparse Hshape.
  assert (load_store data = stored) as Hload.
  { unfold load_store. fold v. by rewrite Hv, Hparse. }
  split; [done|]. intros merge fail Hmerge tr o.
  assert (∀ now, merge now stored event_handle event_name product = Thrown TypeError)
    as Hthrow.
  { intros now.
    assert (∃ key_of, merge = merge_store key_of) as [key_of ->].
    { destruct Hmerge as [[-> _]|[-> _]]; by eexists. }
    unfold merge_store.
    destruct (get stored "events") as [events|e] eqn:Hev; simpl.
    - destruct events; try done. by destruct (Hshape xs).
    - by destruct stored. }
  rewrite runs_read_merge_write. split.
  - intros [(r & e & Heq & Hg' & _)|[(r & d & now & e & Heq & Hg' & Hm & ->)|
            (r & d & now & store' & r2 & Heq & Hg' & Hm & _)]];
      injection Heq as <- ->.
    + congruence.
    + assert (d = data) as -> by congruence. rewrite Hload, Hthrow in Hm.
      injection Hm as <-. by exists now.
    + assert (d = data) as -> by congruence. by rewrite Hload, Hthrow in Hm.
  - intros (now & -> & ->). right; left. exists r1, data, now, TypeError.
    by rewrite Hload, Hthrow.
Qed.

(** X7.  What the write's reply gives.  User errors reported by
    [metafieldsSet] become a 500 whose error text is their messages joined
    by a semicolon and a space; no user error (an empty list, or none
    reported) gives the success response, status 200. *)
Theorem write_user_errors fail (data2 : value) :
  let reported := opt_get (opt_get data2 "metafieldsSet") "userErrors" in
  (∀ es ms,
     reported = VArr es → es ≠ [] →
     Forall2 (λ e m, get e "message" = Ok (VStr m)) es ms →
     respond fail data2 = Ok (fail (join "; " ms) 500)) ∧
  (reported = VArr [] ∨ truthy reported = false →
   respond fail data2 = Ok ok_response ∧ status ok_response = 200).
Proof.
  intros reported. split.
  - intros es ms Hrep Hne Hall. unfold respond. fold reported. rewrite Hrep.
    unfold js_or. simpl.
    assert (error_messages (VArr es) = Ok (join "; " ms)) as Hmsg.
    { unfold error_messages. simpl.
      assert (map_result (λ e, get e "message") es = Ok (VStr <$> ms)) as ->.
      { clear Hrep Hne. induction Hall as [|e m es' ms' He _ IH]; simpl; [done|].
        by rewrite He, IH. }
      simpl. do 2 f_equal. rewrite <- list_fmap_compose. clear.
      induction ms as [|m ms' IH]; [done|]. rewrite fmap_cons. by f_equal. }
    destruct es as [|e0 es0]; [done|]. simpl has_length. cbv iota.
    by rewrite Hmsg.
  - intros Hrep. unfold respond. fold reported. split; [|done].
    destruct Hrep as [-> | Hf]; [done|]. unfold js_or. by rewrite Hf.
Qed.

(** X8.  [shopifyGraphQL] returns exactly on a reply with an [ok] status
    whose body parses to a value other than [null] that reports no errors,
    and what it returns is that value's [data]; on every other reply it
    throws. *)
Theorem graphql_result_returns (r : fetch_reply) (data : value) :
  graphql_result r = Ok data ↔
  ∃ text json,
    r = Response true text ∧ JSON_parse text = Some json ∧
    json ≠ VNull ∧ json ≠ VUndefined ∧
    truthy (opt_get json "errors") = false ∧ data = opt_get json "data".
Proof.
  split.
  - destruct r as [|ok text]; simpl; [done|].
    destruct (JSON_parse text) as [json|] eqn:Hp; [|done].
    destruct (get json "errors") as [errors|e] eqn:He; simpl; [|done].
    assert (json ≠ VNull ∧ json ≠ VUndefined) as [Hn Hu] by by destruct json.
    apply get_opt_get in He as <-.
    destruct ok; simpl; [|done].
    destruct (truthy (opt_get json "errors")) eqn:Ht; [done|].
    intros Hd. apply get_opt_get in Hd as <-.
    by exists text, json.
  - intros (text & json & -> & Hp & Hn & Hu & Ht & ->). simpl. rewrite Hp.
    destruct json; try done; simpl in *; by rewrite Ht.
Qed.

End Sequence.

Section MoreMerge.
Context `{Numbers}.

Lemma merge_store_append key_of (now : string)
    (store h name product evt entry : value) (es ws : list value) (i : nat) :
  truthy h = true →
  get store "events" = Ok (VArr es) →
  findIndex (event_matches h) es = Ok (Some i) →
  es !! i = Some evt →
  get evt "wines" = Ok (VArr ws) →
  Forall (λ w, wine_matches (key_of (opt_get product "product_id")) w = Ok false) ws →
  build_entry now product = Ok entry →
  merge_store key_of now store h name product =
  Ok (set_prop "events"
        (VArr (<[i:=set_prop "wines" (VArr (ws ++ [entry])) evt]> es)) store).
Proof.
  intros Hh Hev Hf Hevt Hws Hnone%findIndex_None Hentry. unfold merge_store.
  rewrite Hev. simpl. rewrite (find_or_create_found _ _ _ _ _ Hh Hf). simpl.
  rewrite Hevt. simpl. unfold upsert_wine. rewrite Hws. simpl.
  rewrite (build_entry_get_product_id _ _ _ Hentry). simpl.
  rewrite Hnone. simpl. by rewrite Hentry.
Qed.

(** X12.  A submission for an event the store has and a product none of
    its entries matches: the entry is appended to that event's wines, in
    both handlers; no event is added and nothing else changes. *)
Theorem merge_appends_new_product (now : string)
    (store event_handle event_name product evt entry : value)
    (es ws : list value) (i : nat) :
  let pid := opt_get product "product_id" in
  let store' :=
    set_prop "events"
      (VArr (<[i:=set_prop "wines" (VArr (ws ++ [entry])) evt]> es)) store in
  truthy event_handle = true →
  get store "events" = Ok (VArr es) →
  findIndex (event_matches event_handle) es = Ok (Some i) →
  es !! i = Some evt →
  get evt "wines" = Ok (VArr ws) →
  build_entry now product = Ok entry →
  (Forall (λ w, wine_matches pid w = Ok false) ws →
   merge_proxy now store event_handle event_name product = Ok store') ∧
  (Forall (λ w, wine_matches (VNum (ToNumber pid)) w = Ok false) ws →
   merge_direct now store event_handle event_name product = Ok store') ∧
  ∃ es', get store' "events" = Ok (VArr es') ∧ length es' = length es.
Proof.
  intros pid store' Hh Hev Hf Hevt Hws Hentry. split; [|split].
  - intros Hnone. by eapply (merge_store_append (λ p, p)).
  - intros Hnone. by eapply (merge_store_append (λ p, VNum (ToNumber p))).
  - destruct (get_Ok_array_object _ _ _ Hev) as (skvs & -> & _).
    eexists. split; [apply get_set_prop_eq|]. apply length_insert.
Qed.

(** X14.  A note that is truthy and neither a string nor an array (a
    number, [true], an object) has no [slice]: building the entry throws a
    TypeError, and so does the merge of either handler, on every store. *)
Theorem unsliceable_note_throws (now : string) (product : value) :
  let note := opt_get product "note" in
  product ≠ VUndefined → product ≠ VNull →
  truthy note = true →
  (∀ s, note ≠ VStr s) → (∀ xs, note ≠ VArr xs) →
  build_entry now product = Thrown TypeError ∧
  ∀ store h name,
    (∃ e, merge_proxy now store h name product = Thrown e) ∧
    (∃ e, merge_direct now store h name product = Thrown e).
Proof.
  intros note Hu Hn Ht Hs Ha.
  assert (build_entry now product = Thrown TypeError) as Hb.
  { unfold build_entry.
    destruct product as [| | | | | |kvs]; try done; simpl in *;
      try discriminate.
    fold note. unfold js_or. rewrite Ht.
    destruct note as [| | | |s|xs|]; simpl; try done.
    - by destruct (Hs s).
    - by destruct (Ha xs). }
  split; [done|]. intros store h name.
  assert (∀ key_of, ∃ e, merge_store key_of now store h name product = Thrown e)
    as Hm.
  { intros key_of.
    destruct (merge_store key_of now store h name product) as [store'|e] eqn:Hm;
      [|by eexists].
    apply merge_store_writes_entry in Hm as (entry & _ & _ & _ & He & _).
    congruence. }
  split; apply Hm.
Qed.

End MoreMerge.

Section NotANumber.
Context `{NumbersLaws}.

(** X13.  In the direct handler a product id whose Number is NaN (it is
    not equal to itself) is equal to no stored id: the entry is appended at
    each submission, never replaced. *)
Theorem merge_direct_nan_id_appends (now : string)
    (store event_handle event_name product evt entry : value)
    (es ws : list value) (i : nat) :
  let n := ToNumber (opt_get product "product_id") in
  num_eqb n n = false →
  truthy event_handle = true →
  get store "events" = Ok (VArr es) →
  findIndex (event_matches event_handle) es = Ok (Some i) →
  es !! i = Some evt →
  get evt "wines" = Ok (VArr ws) →
  Forall (λ w, w ≠ VUndefined ∧ w ≠ VNull) ws →
  build_entry now product = Ok entry →
  merge_direct now store event_handle event_name product =
  Ok (set_prop "events"
        (VArr (<[i:=set_prop "wines" (VArr (ws ++ [entry])) evt]> es)) store).
Proof.
  intros n Hnan Hh Hev Hf Hevt Hws Hall Hentry.
  eapply (merge_store_append (λ p, VNum (ToNumber p))); try done.
  eapply Forall_impl; [exact Hall|]. intros w [Hu Hn]. simpl.
  destruct (wine_matches (VNum n) w) as [b|e] eqn:Hw.
  - destruct b; [|done]. apply wine_matches_key in Hw.
    apply strict_eq_refl_of in Hw. simpl in Hw. congruence.
  - by destruct w.
Qed.

End NotANumber.

Section MoreWitnesses.
Import Samples.

Lemma store_once_invariant : store_invariant store_once.
Proof.
  exists [spring_event [entry_101 now1]]. split; [reflexivity|]. split.
  - intros i j x y Hx Hy _.
    apply list_lookup_singleton_Some in Hx as [-> _].
    by apply list_lookup_singleton_Some in Hy as [-> _].
  - constructor; [|constructor]. exists [entry_101 now1].
    split; [reflexivity|]. intros i j x y Hx Hy _.
    apply list_lookup_singleton_Some in Hx as [-> _].
    by apply list_lookup_singleton_Some in Hy as [-> _].
Qed.

(** A complete run of the App Proxy handler on the second submission of
    product 101. *)
Lemma proxy_second_submission_run :
  runs (POST_proxy proxy_request)
    [EFetch MetafieldQuery (read_variables customer_gid)
       (metafield_reply (JSON_stringify store_once));
     ENow now2;
     EFetch MetafieldsSetMutation
       (write_variables customer_gid
          (store_of [spring_event [entry_101 now1; entry_101 now2]]))
       write_acknowledged]
    (Ok ok_response).
Proof.
  rewrite POST_proxy_sample. apply runs_read_merge_write. right; right.
  eexists _, _, _, _, _. split; [reflexivity|]. split; [reflexivity|].
  split; reflexivity.
Qed.

Lemma proxy_not_logged_in_witness :
  verifyProxySignature (req_headers anonymous_request) (req_text anonymous_request)
    = true ∧
  default "" (lookup_first "logged_in_customer_id" (req_search anonymous_request))
    = "" ∧
  runs (POST_proxy anonymous_request) [] (Ok (proxy_error "Not logged in" 401)).
Proof.
  assert (verifyProxySignature (req_headers anonymous_request)
            (req_text anonymous_request) = true) as Hv by (vm_compute; reflexivity).
  split; [exact Hv|]. split; [reflexivity|].
  exact (proj2 (proxy_not_logged_in anonymous_request Hv eq_refl [] _)
           (conj eq_refl eq_refl)).
Defined.

Lemma proxy_missing_event_or_product_witness :
  verifyProxySignature (req_headers (signed_request "{oops"))
    (req_text (signed_request "{oops")) = true ∧
  JSON_parse (req_text (signed_request "{oops")) = None ∧
  runs (POST_proxy (signed_request "{oops")) []
    (Ok (proxy_error "Missing event or product" 400)).
Proof.
  assert (verifyProxySignature (req_headers (signed_request "{oops"))
            (req_text (signed_request "{oops")) = true) as Hv
    by (vm_compute; reflexivity).
  assert (JSON_parse (req_text (signed_request "{oops")) = None) as Hp
    by reflexivity.
  split; [exact Hv|]. split; [exact Hp|].
  assert (default "" (lookup_first "logged_in_customer_id"
                        (req_search (signed_request "{oops"))) ≠ "") as Hl
    by discriminate.
  exact (proj2 (proxy_missing_event_or_product (signed_request "{oops") Hv Hl
                  (or_introl Hp) [] _)
           (conj eq_refl eq_refl)).
Defined.

Lemma direct_invalid_body_witness :
  let request := {| req_headers := [("origin", "https://www.famelia.com")];
                    req_search := []; req_text := "{oops" |} in
  origin_allowed (lookup_first "origin" (req_headers request)) = true ∧
  JSON_parse (req_text request) = None ∧
  runs (POST_direct request) [] (Ok (bad "Invalid JSON" 400)).
Proof.
  intros request.
  assert (origin_allowed (lookup_first "origin" (req_headers request)) = true)
    as Ho by reflexivity.
  assert (JSON_parse (req_text request) = None) as Hp by reflexivity.
  split; [exact Ho|]. split; [exact Hp|].
  exact (proj2 (proj1 (direct_invalid_body request Ho) Hp [] _)
           (conj eq_refl eq_refl)).
Defined.

Lemma remote_calls_in_order_witness :
  queries
    [EFetch MetafieldQuery (read_variables customer_gid)
       (metafield_reply (JSON_stringify store_once));
     ENow now2;
     EFetch MetafieldsSetMutation
       (write_variables customer_gid
          (store_of [spring_event [entry_101 now1; entry_101 now2]]))
       write_acknowledged]
  `prefix_of` [MetafieldQuery; MetafieldsSetMutation].
Proof.
  exact (proj1 (remote_calls_in_order proxy_request) _ _ proxy_second_submission_run).
Defined.


Lemma misshapen_document_throws_witness :
  let data :=
    VObj [("customer",
           VObj [("metafield",
                  VObj [("id", VStr "gid://shopify/Metafield/1");
                        ("type", VStr "json"); ("value", VStr "{}")])])] in
  graphql_result (metafield_reply "{}") = Ok data ∧
  JSON_parse "{}" = Some (VObj []) ∧
  (∀ es, get (VObj []) "events" ≠ Ok (VArr es)) ∧
  runs (read_merge_write merge_direct bad customer_gid spring VUndefined product_101)
    [EFetch MetafieldQuery (read_variables customer_gid) (metafield_reply "{}");
     ENow now1]
    (Thrown TypeError).
Proof.
  intros data.
  assert (graphql_result (metafield_reply "{}") = Ok data) as Hg by reflexivity.
  assert (JSON_parse "{}" = Some (VObj [])) as Hp by reflexivity.
  assert (∀ es, get (VObj []) "events" ≠ Ok (VArr es)) as Hshape by done.
  split; [exact Hg|]. split; [exact Hp|]. split; [exact Hshape|].
  destruct (misshapen_document_throws customer_gid spring VUndefined product_101
              data (VObj []) (metafield_reply "{}") Hg eq_refl Hp Hshape)
    as [_ Hruns].
  apply (Hruns merge_direct bad (or_intror (conj eq_refl eq_refl))).
  by exists now1.
Defined.

Lemma write_user_errors_witness :
  opt_get (opt_get refused_write "metafieldsSet") "userErrors"
    = VArr [VObj [("field", VNull); ("message", VStr "Value is too long")];
            VObj [("field", VNull); ("message", VStr "Owner not found")]] ∧
  respond bad refused_write = Ok (bad "Value is too long; Owner not found" 500).
Proof.
  split; [reflexivity|].
  apply (proj1 (write_user_errors bad refused_write) _
           ["Value is too long"; "Owner not found"] eq_refl); [done|].
  repeat constructor.
Defined.

Lemma graphql_result_returns_witness :
  graphql_result write_acknowledged
    = Ok (VObj [("metafieldsSet", VObj [("userErrors", VArr [])])]).
Proof.
  apply graphql_result_returns. eexists _, _. split; [reflexivity|].
  split; [reflexivity|]. by repeat split.
Defined.

Lemma merge_direct_keeps_invariant_witness :
  truthy spring = true ∧ store_invariant store_once ∧
  merge_direct now2 store_once spring VUndefined product_101
    = Ok (store_of [spring_event [entry_101 now2]]) ∧
  store_invariant (store_of [spring_event [entry_101 now2]]).
Proof.
  split; [reflexivity|]. split; [exact store_once_invariant|].
  split; [reflexivity|].
  exact (@merge_direct_keeps_invariant _ int_numbers_laws now2 store_once spring
           VUndefined product_101 _ eq_refl store_once_invariant eq_refl).
Defined.

Lemma merge_proxy_keeps_invariant_witness :
  truthy spring = true ∧
  opt_get product_long "product_id" = VNum (IInt 101) ∧
  store_invariant store_once ∧
  ∃ store', merge_proxy now2 store_once spring VUndefined product_long = Ok store' ∧
            store_invariant store'.
Proof.
  split; [reflexivity|]. split; [reflexivity|]. split; [exact store_once_invariant|].
  eexists. split; [reflexivity|].
  exact (@merge_proxy_keeps_invariant _ int_numbers_laws now2 store_once spring
           VUndefined product_long _ (IInt 101) eq_refl eq_refl
           store_once_invariant eq_refl).
Defined.

Lemma merge_direct_in_place_witness :
  findIndex (event_matches spring) [spring_event [entry_101 now1]] = Ok (Some 0) ∧
  findIndex (wine_matches (VNum (ToNumber (opt_get product_101 "product_id"))))
    [entry_101 now1] = Ok (Some 0) ∧
  merge_direct now2 store_once spring VUndefined product_101
    = Ok (store_of [spring_event [entry_101 now2]]) ∧
  merge_times merge_direct 5 now2 store_once spring VUndefined product_101
    = merge_direct now2 store_once spring VUndefined product_101.
Proof.
  split; [reflexivity|]. split; [reflexivity|].
  destruct (@merge_direct_in_place _ int_numbers_laws now2 store_once spring
              VUndefined product_101 (spring_event [entry_101 now1])
              (entry_101 now2) [spring_event [entry_101 now1]] [entry_101 now1]
              0 0 4 eq_refl eq_refl eq_refl eq_refl eq_refl eq_refl eq_refl)
    as [Hplace Hsame].
  split; [exact Hplace|exact Hsame].
Defined.

Lemma merge_appends_new_product_witness :
  let product := VObj [("product_id", VNum (IInt 102)); ("note", VStr "dry")] in
  let entry := VObj [("product_id", VNum (IInt 102)); ("handle", VStr "");
                     ("title", VStr ""); ("rating", VNull); ("note", VStr "dry");
                     ("updated_at", VStr now2)] in
  Forall (λ w, wine_matches (opt_get product "product_id") w = Ok false)
    [entry_101 now1] ∧
  merge_proxy now2 store_once spring VUndefined product
    = Ok (store_of [spring_event [entry_101 now1; entry]]) ∧
  merge_direct now2 store_once spring VUndefined product
    = Ok (store_of [spring_event [entry_101 now1; entry]]).
Proof.
  intros product entry.
  assert (Forall (λ w, wine_matches (opt_get product "product_id") w = Ok false)
            [entry_101 now1]) as Hnone by (constructor; [reflexivity|constructor]).
  destruct (merge_appends_new_product now2 store_once spring VUndefined product
              (spring_event [entry_101 now1]) entry
              [spring_event [entry_101 now1]] [entry_101 now1] 0
              eq_refl eq_refl eq_refl eq_refl eq_refl eq_refl)
    as (Hp & Hd & _).
  split; [exact Hnone|]. split; [exact (Hp Hnone)|exact (Hd Hnone)].
Defined.

Lemma merge_direct_nan_id_appends_witness :
  ToNumber (opt_get product_abc "product_id") = INaN ∧
  merge_direct now1 (store_of [spring_event []]) spring VUndefined product_abc
    = Ok (store_of [spring_event
                      [VObj [("product_id", VNum INaN); ("handle", VStr "");
                             ("title", VStr ""); ("rating", VNull);
                             ("note", VStr "nice"); ("updated_at", VStr now1)]]]) ∧
  ∃ store2,
    merge_times merge_direct 2 now1 (store_of [spring_event []]) spring VUndefined
      product_abc = Ok store2 ∧
    ∃ w1 w2, get store2 "events" = Ok (VArr [spring_event [w1; w2]]).
Proof.
  split; [reflexivity|].
  pose proof (@merge_direct_nan_id_appends _ int_numbers_laws now1
                (store_of [spring_event []]) spring VUndefined product_abc
                (spring_event []) _ [spring_event []] [] 0
                eq_refl eq_refl eq_refl eq_refl eq_refl eq_refl
                (List.Forall_nil _) eq_refl) as Hfirst.
  split; [exact Hfirst|].
  eexists. split; [reflexivity|]. by eexists _, _.
Defined.

Lemma unsliceable_note_throws_witness :
  truthy (opt_get product_numeric_note "note") = true ∧
  build_entry now1 product_numeric_note = Thrown TypeError ∧
  ∃ e, merge_direct now1 store_once spring VUndefined product_numeric_note
       = Thrown e.
Proof.
  split; [reflexivity|].
  destruct (unsliceable_note_throws now1 product_numeric_note)
    as [Hb Hm]; try done.
  split; [exact Hb|]. apply (Hm store_once spring VUndefined).
Defined.

End MoreWitnesses.
